(** * jina-mcp-tools: the request adapter of [index.js], embedded and verified

    The development follows the source file top to bottom:
    JavaScript strings and the two regular expressions of [handleGitHubUrl],
    the header builders, the asynchronous tool handlers over a network
    oracle, and the legacy tool set (three tools, version 1.0.3). *)

From Stdlib Require Import ZArith NArith QArith Ascii DecimalString.
From stdpp Require Import strings list gmap.

Local Open Scope Z_scope.
Local Open Scope list_scope.

#[local] Set Warnings "-register-all".

(** ** JavaScript strings

    A JavaScript string is a sequence of UTF-16 code units; both regular
    expressions of the source are written without the [u] flag and work on
    code units. *)

Definition code_unit := N.
Definition jsstring := list code_unit.

(** An ASCII literal of the source text. *)
Definition lit (s : string) : jsstring :=
  (fun a => N_of_ascii a) <$> String.list_ascii_of_string s.

#[global] Arguments lit : simpl never.

(** [s.startsWith(p)]: the test [String.prototype.includes] and
    [String.prototype.replace] make at each position. *)
Fixpoint startsWith (s p : jsstring) {struct p} : bool :=
  match p, s with
  | [], _ => true
  | _ :: _, [] => false
  | a :: p', c :: s' => (c =? a)%N && startsWith s' p'
  end.

(** [s.includes(p)] *)
Fixpoint String_includes (s p : jsstring) : bool :=
  startsWith s p ||
  match s with
  | [] => false
  | _ :: s' => String_includes s' p
  end.

(** [s.replace(p, r)] with a string pattern: the first occurrence only.
    Neither replacement text of the source contains a dollar sign. *)
Fixpoint String_replace (s p r : jsstring) : jsstring :=
  if startsWith s p then r ++ drop (length p) s
  else match s with
       | [] => []
       | c :: s' => c :: String_replace s' p r
       end.

(** ** Regular expressions

    The backtracking matcher of ECMAScript, in continuation-passing style as
    the language standard defines it.  The two patterns of the source
    quantify one-character atoms only, so a quantifier carries a character
    predicate. *)

Inductive regex : Type :=
| Str (s : jsstring)                      (* a run of pattern characters *)
| Cls (p : code_unit -> bool)             (* a class, or the dot *)
| Bol                                     (* ^ *)
| Eol                                     (* $ *)
| Cat (r1 r2 : regex)
| Rep (lo : nat) (hi : option nat) (p : code_unit -> bool)
                                          (* greedy p{lo,hi}; [None] is no upper bound *)
| Grp (n : nat) (r : regex).              (* the n-th capturing group *)

Declare Scope regex_scope.
Delimit Scope regex_scope with re.
Bind Scope regex_scope with regex.
Infix "⋅" := Cat (at level 60, right associativity) : regex_scope.

Definition Plus (p : code_unit -> bool) : regex := Rep 1 None p.
Definition Star (p : code_unit -> bool) : regex := Rep 0 None p.
Definition Opt (p : code_unit -> bool) : regex := Rep 0 (Some 1%nat) p.

(** The array a successful match yields: index 0 is the whole match, index
    [n] the text of group [n]; a missing index reads [undefined]. *)
Definition MatchResult := gmap nat jsstring.

(** A continuation receives the index reached, the rest of the input and the
    captures so far. *)
Definition Cont := nat -> jsstring -> MatchResult -> option MatchResult.

Definition pred_hi (hi : option nat) : option nat := Nat.pred <$> hi.

Definition hi_open (hi : option nat) : bool :=
  match hi with Some O => false | _ => true end.

(** Greedy repetition: take one more character when the bounds and the
    class allow it, and come back to the continuation when that fails. *)
Fixpoint m_rep (p : code_unit -> bool) (lo : nat) (hi : option nat) (k : Cont)
    (i : nat) (s : jsstring) (caps : MatchResult) {struct s} : option MatchResult :=
  let stop := match lo with O => k i s caps | S _ => None end in
  match s with
  | c :: s' =>
      if p c && hi_open hi then
        match m_rep p (Nat.pred lo) (pred_hi hi) k (S i) s' caps with
        | Some r => Some r
        | None => stop
        end
      else stop
  | [] => stop
  end.

Fixpoint m (r : regex) (k : Cont) (i : nat) (s : jsstring) (caps : MatchResult)
    : option MatchResult :=
  match r with
  | Str t => if startsWith s t then k (i + length t)%nat (drop (length t) s) caps else None
  | Cls p =>
      match s with
      | c :: s' => if p c then k (S i) s' caps else None
      | [] => None
      end
  | Bol => match i with O => k i s caps | S _ => None end
  | Eol => match s with [] => k i s caps | _ :: _ => None end
  | Cat r1 r2 => m r1 (m r2 k) i s caps
  | Rep lo hi p => m_rep p lo hi k i s caps
  | Grp n r => m r (fun i' s' caps' => k i' s' (<[n := take (i' - i) s]> caps')) i s caps
  end.

(** A match attempt at index [i], where [s] is the input from [i] on. *)
Definition match_at (r : regex) (i : nat) (s : jsstring) : option MatchResult :=
  m r (fun i' _ caps => Some (<[O := take (i' - i) s]> caps)) i s ∅.

(** [r.exec(s)] for a pattern without the [g] and [y] flags: the attempts
    start at index 0 and move right; the first success is the result. *)
Fixpoint exec_from (r : regex) (i : nat) (s : jsstring) : option MatchResult :=
  match match_at r i s with
  | Some res => Some res
  | None =>
      match s with
      | [] => None
      | _ :: s' => exec_from r (S i) s'
      end
  end.

Definition RegExp_exec (r : regex) (s : jsstring) : option MatchResult := exec_from r 0 s.

(** [s.match(r)] *)
Definition String_match (s : jsstring) (r : regex) : option MatchResult := RegExp_exec r s.

(** [r.test(s)] *)
Definition RegExp_test (r : regex) (s : jsstring) : bool := bool_decide (is_Some (RegExp_exec r s)).

(** *** The character classes of the source *)

Definition slash : code_unit := 47%N.

(** [[^\/]] *)
Definition not_slash (c : code_unit) : bool := negb (c =? slash)%N.

(** [\/] under a quantifier *)
Definition is_slash (c : code_unit) : bool := (c =? slash)%N.

(** The dot: any code unit but the four line terminators LF, CR, LS, PS. *)
Definition dot (c : code_unit) : bool :=
  negb ((c =? 10) || (c =? 13) || (c =? 8232) || (c =? 8233))%N.

(** [[a-f0-9]] under the [i] flag.  Case folding never maps a code unit
    above 127 to an ASCII one, so the class holds the digits and the letters
    a to f in both cases, and nothing else. *)
Definition hex_digit_i (c : code_unit) : bool :=
  ((48 <=? c) && (c <=? 57) || (97 <=? c) && (c <=? 102) || (65 <=? c) && (c <=? 70))%N.

(** The pattern of line 72: the text github.com/ , three groups of one or
    more non-slash code units separated by / and /blob/ , an optional
    slash, and a fourth group: the dot, starred. *)
Definition blob_pattern : regex :=
  (Str (lit "github.com/") ⋅ Grp 1 (Plus not_slash) ⋅ Str (lit "/") ⋅
   Grp 2 (Plus not_slash) ⋅ Str (lit "/blob/") ⋅ Grp 3 (Plus not_slash) ⋅
   Opt is_slash ⋅ Grp 4 (Star dot))%re.

(** The pattern of line 79: [/^[a-f0-9]{40}$/i] *)
Definition commit_hash_pattern : regex :=
  (Bol ⋅ Rep 40 (Some 40%nat) hex_digit_i ⋅ Eol)%re.

(** ** The URL classifier (index.js, lines 65 to 109) *)

Record GitHubUrl := {
  isGitHub : bool;
  convertedUrl : jsstring;
  originalUrl : jsstring;
  shouldBypassJina : bool
}.

(** An element of the match array inside a template literal or handed to
    [test]: [undefined] reads as the text "undefined". *)
Definition ToString (o : option jsstring) : jsstring := default (lit "undefined") o.

Definition handleGitHubUrl (url : jsstring) : GitHubUrl :=
  let isGitHub := String_includes url (lit "github.com") && String_includes url (lit "/blob/") in
  if isGitHub then
    let convertedUrl :=
      match String_match url blob_pattern with
      | Some match_ =>
          let owner := ToString (match_ !! 1%nat) in
          let repo := ToString (match_ !! 2%nat) in
          let ref := ToString (match_ !! 3%nat) in
          let path := ToString (match_ !! 4%nat) in
          let isCommitHash := RegExp_test commit_hash_pattern ref in
          if isCommitHash then
            lit "https://raw.githubusercontent.com/" ++ owner ++ lit "/" ++ repo ++
            lit "/" ++ ref ++ lit "/" ++ path
          else
            lit "https://raw.githubusercontent.com/" ++ owner ++ lit "/" ++ repo ++
            lit "/refs/heads/" ++ ref ++ lit "/" ++ path
      | None =>
          String_replace
            (String_replace url (lit "github.com") (lit "raw.githubusercontent.com"))
            (lit "/blob/") (lit "/")
      end in
    {| isGitHub := true; convertedUrl := convertedUrl;
       originalUrl := url; shouldBypassJina := true |}
  else
    {| isGitHub := false; convertedUrl := url;
       originalUrl := url; shouldBypassJina := false |}.

(** ** Numbers, errors and JSON values *)

(** The numbers the handlers print are an HTTP status, a length, an index
    and the timeout in seconds.  [Number.prototype.toString] prints a safe
    integer, one of at most 2^53 - 1 in absolute value, as its decimal
    numeral, and so does this function.  Beyond that bound a number holds
    an integer only up to rounding and is printed with the shortest digits
    that read back as the same number (2^64 as 18446744073709552000), which
    this function does not follow: what is stated of a printed timeout is
    stated of safe integers. *)
Definition Number_toString (z : Z) : jsstring := lit (NilEmpty.string_of_int (Z.to_int z)).

(** [Number.MAX_SAFE_INTEGER], 2^53 - 1 *)
Definition MAX_SAFE_INTEGER : Z := 9007199254740991.

(** [if (s)] and [s || ...] on a string: the empty string is falsy. *)
Definition String_truthy (s : jsstring) : bool :=
  match s with [] => false | _ :: _ => true end.

(** [if (n)] on a number *)
Definition Number_truthy (z : Z) : bool := negb (z =? 0).

Record Error := { message : jsstring }.

(** A value [JSON.parse] can yield.  An object lists its properties in the
    order of the text; a number is the rational it stands for. *)
Inductive json : Type :=
| JNull
| JBool (b : bool)
| JNum (q : Q)
| JStr (s : jsstring)
| JArr (items : list json)
| JObj (fields : list (jsstring * json)).

(** [v || ...] takes the right-hand side when [v] is falsy. *)
Definition truthy (v : json) : bool :=
  match v with
  | JNull => false
  | JBool b => b
  | JNum q => negb (Qnum q =? 0)
  | JStr s => String_truthy s
  | JArr _ | JObj _ => true
  end.

(** A key written twice in the text reads its last value. *)
Fixpoint own_property (fields : list (jsstring * json)) (key : jsstring) : option json :=
  match fields with
  | [] => None
  | (k, v) :: fields' =>
      match own_property fields' key with
      | Some v' => Some v'
      | None => if decide (k = key) then Some v else None
      end
  end.

(** [v.key] for the two keys the handlers read, [data] and [content], which
    no built-in prototype defines: [undefined] ([None]) on anything but an
    object that has the key, and a [TypeError] on [null]. *)
Definition get (v : json) (key : jsstring) : Error + option json :=
  match v with
  | JNull =>
      inl {| message := lit "Cannot read properties of null (reading '" ++ key ++ lit "')" |}
  | JObj fields => inr (own_property fields key)
  | _ => inr None
  end.

(** [undefined || w] and [v || w] *)
Definition or_else (v : option json) (w : json) : json :=
  match v with
  | Some v => if truthy v then v else w
  | None => w
  end.

(** ** [encodeURIComponent] *)

Definition uriUnreserved (c : code_unit) : bool :=
  ((48 <=? c) && (c <=? 57) || (65 <=? c) && (c <=? 90) || (97 <=? c) && (c <=? 122)
   || bool_decide (c ∈ lit "-_.!~*'()"))%N.

Definition upper_hex (n : N) : code_unit := (if n <? 10 then 48 + n else 55 + n)%N.

Definition percent (octet : N) : jsstring :=
  [37%N; upper_hex (octet / 16); upper_hex (octet mod 16)].

Definition utf8 (cp : N) : list N :=
  (if cp <? 128 then [cp]
   else if cp <? 2048 then [192 + cp / 64; 128 + cp mod 64]
   else if cp <? 65536 then [224 + cp / 4096; 128 + (cp / 64) mod 64; 128 + cp mod 64]
   else [240 + cp / 262144; 128 + (cp / 4096) mod 64; 128 + (cp / 64) mod 64;
         128 + cp mod 64])%N.

Definition lead_surrogate (c : code_unit) : bool := ((55296 <=? c) && (c <=? 56319))%N.
Definition trail_surrogate (c : code_unit) : bool := ((56320 <=? c) && (c <=? 57343))%N.

Definition URIError : Error := {| message := lit "URI malformed" |}.

Definition escape (cp : N) (r : Error + jsstring) : Error + jsstring :=
  match r with
  | inl e => inl e
  | inr t => inr (concat (percent <$> utf8 cp) ++ t)
  end.

(** An unreserved code unit stays; any other code point is written as the
    percent-escapes of its UTF-8 octets; a surrogate without its partner
    throws. *)
Fixpoint encodeURIComponent (s : jsstring) : Error + jsstring :=
  match s with
  | [] => inr []
  | c :: s' =>
      if uriUnreserved c then
        match encodeURIComponent s' with
        | inl e => inl e
        | inr t => inr (c :: t)
        end
      else if lead_surrogate c then
        match s' with
        | d :: s'' =>
            if trail_surrogate d
            then escape ((c - 55296) * 1024 + (d - 56320) + 65536)%N (encodeURIComponent s'')
            else inl URIError
        | [] => inl URIError
        end
      else if trail_surrogate c then inl URIError
      else escape c (encodeURIComponent s')
  end.

(** ** HTTP and the asynchronous functions *)

Abbreviation Headers := (gmap jsstring jsstring).

Inductive Method := GET | POST.

(** What [fetch] is called with. *)
Record Request := {
  url : jsstring;
  method : Method;
  headers : Headers;
  body : option jsstring
}.

(** What a handler reads of a response: [status], [statusText], the result
    of [text()] and the result of [json()], which throws on a body that is
    not JSON.  A body that cannot be read at all is an exchange that failed:
    the network answers the request with the error. *)
Record Response := {
  status : Z;
  statusText : jsstring;
  text_ : jsstring;
  json_ : Error + json
}.

(** [response.ok] *)
Definition ok (r : Response) : bool := (200 <=? status r) && (status r <=? 299).

(** The process environment and the network: a request is answered with a
    response, or the exchange fails and [fetch] throws. *)
Record World := {
  JINA_API_KEY : option jsstring;
  network : Request → Error + Response
}.

(** An asynchronous function: it reads the world, issues requests in order
    and returns or throws. *)
Definition Async (A : Type) : Type := World → list Request * (Error + A).

Definition ret {A} (a : A) : Async A := fun _ => ([], inr a).

Definition throw {A} (e : Error) : Async A := fun _ => ([], inl e).

Definition lift {A} (r : Error + A) : Async A := fun _ => ([], r).

Definition bind {A B} (c : Async A) (k : A → Async B) : Async B :=
  fun w =>
    match c w with
    | (log, inl e) => (log, inl e)
    | (log, inr a) => let '(log', r) := k a w in (log ++ log', r)
    end.

Definition try_catch {A} (body : Async A) (handler : Error → Async A) : Async A :=
  fun w =>
    match body w with
    | (log, inl e) => let '(log', r) := handler e w in (log ++ log', r)
    | (log, inr a) => (log, inr a)
    end.

Notation "'let*' x ':=' c 'in' k" := (bind c (fun x => k))
  (at level 10, x name, c at level 100, k at level 200).

Definition fetch (url : jsstring) (method : Method) (headers : Headers)
    (body : option jsstring) : Async Response :=
  fun w =>
    let request := {| url := url; method := method; headers := headers; body := body |} in
    ([request], network w request).

(** Lines 9 to 11: [process.env.JINA_API_KEY || null] *)
Definition getJinaApiKey : Async (option jsstring) :=
  fun w =>
    ([], inr match JINA_API_KEY w with
             | Some key => if String_truthy key then Some key else None
             | None => None
             end).

(** Lines 14 to 23. *)
Definition createHeaders (baseHeaders : Headers) : Async Headers :=
  let headers := baseHeaders in
  let* apiKey := getJinaApiKey in
  match apiKey with
  | Some apiKey => ret (<[lit "Authorization" := lit "Bearer " ++ apiKey]> headers)
  | None => ret headers
  end.

(** ** The header table of the reader (lines 36 to 58 and 118 to 179) *)

Inductive ExtractionMode := STANDARD | COMPREHENSIVE | CLEAN_CONTENT.

Inductive OutputFormat := DEFAULT | MARKDOWN | TEXT | STRUCTURED.

(** [h[name] = value] *)
Definition assign (h : Headers) (name value : string) : Headers := <[lit name := lit value]> h.

Definition buildJinaHeaders (mode : ExtractionMode) (format : OutputFormat)
    (isGitHub : bool) : Headers :=
  let baseHeaders :=
    assign (assign ∅ "Content-Type" "application/json") "Accept" "application/json" in
  if isGitHub then
    let h := assign baseHeaders "X-Engine" "direct" in
    let h := assign h "X-Return-Format" "text" in
    assign h "X-Timeout" "10"
  else
    let baseHeaders :=
      match mode with
      | STANDARD =>
          let h := assign baseHeaders "X-Engine" "direct" in
          let h := assign h "X-With-Links-Summary" "true" in
          assign h "X-Timeout" "10"
      | COMPREHENSIVE =>
          let h := assign baseHeaders "X-Engine" "browser" in
          let h := assign h "X-With-Links-Summary" "true" in
          let h := assign h "X-With-Images-Summary" "true" in
          assign h "X-Timeout" "15"
      | CLEAN_CONTENT =>
          let h := assign baseHeaders "X-Engine" "browser" in
          let h := assign h "X-Target-Selector" "main,article,.content" in
          let h := assign h "X-Remove-Selector" "nav,header,footer,.sidebar,.ads" in
          assign h "X-Timeout" "15"
      end in
    match format with
    | DEFAULT => baseHeaders
    | MARKDOWN => assign baseHeaders "X-Return-Format" "markdown"
    | TEXT => assign baseHeaders "X-Return-Format" "text"
    | STRUCTURED =>
        let h := assign baseHeaders "X-Return-Format" "markdown" in
        let h := assign h "X-With-Links-Summary" "true" in
        assign h "X-With-Images-Summary" "true"
    end.

#[global] Arguments buildJinaHeaders : simpl never.

(** ** Tool results *)

Record TextContent := { type : jsstring; text : json }.

(** [isError] is [false] where the source leaves the property out. *)
Record ToolResult := { content : list TextContent; isError : bool }.

Definition text_result (t : json) : ToolResult :=
  {| content := [{| type := lit "text"; text := t |}]; isError := false |}.

Definition error_result (t : jsstring) : ToolResult :=
  {| content := [{| type := lit "text"; text := JStr t |}]; isError := true |}.

(** ** The tools of index.js (lines 182 to 328) *)

Record ReaderArgs := {
  reader_url : jsstring;
  mode : option ExtractionMode;
  format : option OutputFormat;
  customTimeout : option Z
}.

Record SearchArgs := {
  query : jsstring;
  count : Z;
  siteFilter : option jsstring
}.

Section tools.
(** [JSON.stringify(value, null, indent)]; indent 0 is the one-argument
    call. *)
Variable JSON_stringify : json → nat → jsstring.

(** The handler of lines 207 to 272. *)
Definition jina_reader (args : ReaderArgs) : Async ToolResult :=
  let url := reader_url args in
  let mode := default STANDARD (mode args) in
  let format := default DEFAULT (format args) in
  let customTimeout := customTimeout args in
  try_catch
    (let gh := handleGitHubUrl url in
     let actualUrl := convertedUrl gh in
     if shouldBypassJina gh then
       let* directResponse := fetch actualUrl GET ∅ None in
       if negb (ok directResponse) then
         throw {| message := lit "GitHub API error (" ++ Number_toString (status directResponse)
                             ++ lit "): " ++ statusText directResponse |}
       else
         let content := text_ directResponse in
         ret (text_result (JStr content))
     else
       let jinaHeaders := buildJinaHeaders mode format (isGitHub gh) in
       let jinaHeaders :=
         match customTimeout with
         | Some t =>
             if Number_truthy t
             then <[lit "X-Timeout" := Number_toString t]> jinaHeaders
             else jinaHeaders
         | None => jinaHeaders
         end in
       let* headers := createHeaders jinaHeaders in
       let* response :=
         fetch (lit "https://r.jina.ai/") POST headers
           (Some (JSON_stringify (JObj [(lit "url", JStr actualUrl)]) 0)) in
       if negb (ok response) then
         let errorText := text_ response in
         throw {| message := lit "Jina Reader API error (" ++ Number_toString (status response)
                             ++ lit "): " ++ errorText |}
       else
         let* data := lift (json_ response) in
         let* data_data := lift (get data (lit "data")) in
         let responseData := or_else data_data (JObj []) in
         let* responseData_content := lift (get responseData (lit "content")) in
         let resultText := or_else responseData_content (JStr (lit "No content extracted")) in
         ret (text_result resultText))
    (fun error => ret (error_result (message error))).

(** The handler of lines 287 to 327; [count] is taken and not used. *)
Definition jina_search (args : SearchArgs) : Async ToolResult :=
  let query := query args in
  let siteFilter := siteFilter args in
  try_catch
    (let* encodedQuery := lift (encodeURIComponent query) in
     let baseHeaders := assign ∅ "X-Respond-With" "no-content" in
     let baseHeaders :=
       match siteFilter with
       | Some siteFilter =>
           if String_truthy siteFilter
           then <[lit "X-Site" := lit "https://" ++ siteFilter]> baseHeaders
           else baseHeaders
       | None => baseHeaders
       end in
     let* headers := createHeaders baseHeaders in
     let* response := fetch (lit "https://s.jina.ai/?q=" ++ encodedQuery) GET headers None in
     if negb (ok response) then
       let errorText := text_ response in
       throw {| message := lit "Jina Search API error (" ++ Number_toString (status response)
                           ++ lit "): " ++ errorText |}
     else
       let text := text_ response in
       ret (text_result (JStr text)))
    (fun error => ret (error_result (message error))).
End tools.

(** ** The legacy tool set (version 1.0.3): three tools

    The second source file registers a reader, a search and a fact-check
    tool; its helpers are those of index.js. *)

Module Legacy.

Inductive Format := Default | Markdown | HTML | Text | Screenshot | Pageshot.

(** [format.toLowerCase()] *)
Definition toLowerCase (f : Format) : jsstring :=
  match f with
  | Default => lit "default"
  | Markdown => lit "markdown"
  | HTML => lit "html"
  | Text => lit "text"
  | Screenshot => lit "screenshot"
  | Pageshot => lit "pageshot"
  end.

Inductive ReturnFormat := as_markdown | as_text | as_html.

Record ReaderArgs := {
  url : jsstring;
  format : Format;
  withLinks : bool;
  withImages : bool
}.

Record SearchArgs := {
  query : jsstring;
  count : Z;
  returnFormat : ReturnFormat
}.

Record FactCheckArgs := {
  statement : jsstring;
  deepdive : bool
}.

Definition createHeaders (baseHeaders : Headers) : Async Headers :=
  let headers := baseHeaders in
  let* apiKey := getJinaApiKey in
  match apiKey with
  | Some apiKey => ret (<[lit "Authorization" := lit "Bearer " ++ apiKey]> headers)
  | None => ret headers
  end.

Definition error_result (msg : jsstring) : ToolResult :=
  {| content := [{| type := lit "text"; text := JStr (lit "Error: " ++ msg) |}];
     isError := true |}.

Section tools.
Variable JSON_stringify : json → nat → jsstring.

(** Lines 133 to 170 of the legacy search handler: the body is parsed,
    cut to [count] results and laid out in the asked format, or one of
    these steps throws.  No property stated here looks inside. *)
Variable formatResults : jsstring → Z → ReturnFormat → Error + jsstring.

(** The handler of lines 57 to 94. *)
Definition jina_reader (args : ReaderArgs) : Async ToolResult :=
  let url := url args in
  try_catch
    (let h := assign ∅ "Content-Type" "application/json" in
     let h := assign h "Accept" "application/json" in
     let h := assign h "X-With-Links-Summary" (if withLinks args then "true" else "false") in
     let h := assign h "X-With-Images-Summary" (if withImages args then "true" else "false") in
     let h := <[lit "X-Return-Format" := toLowerCase (format args)]> h in
     let* headers := createHeaders h in
     let* response :=
       fetch (lit "https://r.jina.ai/") POST headers
         (Some (JSON_stringify (JObj [(lit "url", JStr url)]) 0)) in
     if negb (ok response) then
       let errorText := text_ response in
       throw {| message := lit "Jina Reader API error (" ++ Number_toString (status response)
                           ++ lit "): " ++ errorText |}
     else
       let* data := lift (json_ response) in
       let* data_data := lift (get data (lit "data")) in
       match data_data with
       | Some d =>
           if truthy d then
             let* content := lift (get d (lit "content")) in
             match content with
             | Some c =>
                 if truthy c then ret (text_result c)
                 else ret (text_result (JStr (JSON_stringify data 2)))
             | None => ret (text_result (JStr (JSON_stringify data 2)))
             end
           else ret (text_result (JStr (JSON_stringify data 2)))
       | None => ret (text_result (JStr (JSON_stringify data 2)))
       end)
    (fun error => ret (error_result (message error))).

(** The handler of lines 112 to 187. *)
Definition jina_search (args : SearchArgs) : Async ToolResult :=
  try_catch
    (let* encodedQuery := lift (encodeURIComponent (query args)) in
     let h := assign ∅ "Accept" "application/json" in
     let h := assign h "X-Respond-With" "no-content" in
     let* headers := createHeaders h in
     let* response := fetch (lit "https://s.jina.ai/?q=" ++ encodedQuery) GET headers None in
     if negb (ok response) then
       let errorText := text_ response in
       throw {| message := lit "Jina Search API error (" ++ Number_toString (status response)
                           ++ lit "): " ++ errorText |}
     else
       let text := text_ response in
       let* formattedOutput := lift (formatResults text (count args) (returnFormat args)) in
       ret (text_result (JStr formattedOutput)))
    (fun error => ret (error_result (message error))).

(** The handler of lines 201 to 238. *)
Definition jina_fact_check (args : FactCheckArgs) : Async ToolResult :=
  try_catch
    (let h := assign ∅ "Content-Type" "application/json" in
     let h := assign h "Accept" "application/json" in
     let* headers := createHeaders h in
     let* response :=
       fetch (lit "https://g.jina.ai/") POST headers
         (Some (JSON_stringify
                  (JObj [(lit "statement", JStr (statement args));
                         (lit "deepdive", JBool (deepdive args))]) 0)) in
     if negb (ok response) then
       let errorText := text_ response in
       throw {| message := lit "Jina Fact-Check API error (" ++ Number_toString (status response)
                           ++ lit "): " ++ errorText |}
     else
       let* data := lift (json_ response) in
       ret (text_result (JStr (JSON_stringify data 2))))
    (fun error => ret (error_result (message error))).
End tools.

End Legacy.

(** ** A tool invocation, of either tool set *)

Inductive ToolCall :=
| call_jina_reader (args : ReaderArgs)
| call_jina_search (args : SearchArgs)
| call_legacy_reader (args : Legacy.ReaderArgs)
| call_legacy_search (args : Legacy.SearchArgs)
| call_legacy_fact_check (args : Legacy.FactCheckArgs).

Section invoke.
Variable JSON_stringify : json → nat → jsstring.
Variable formatResults : jsstring → Z → Legacy.ReturnFormat → Error + jsstring.

Definition invoke (call : ToolCall) : Async ToolResult :=
  match call with
  | call_jina_reader args => jina_reader JSON_stringify args
  | call_jina_search args => jina_search args
  | call_legacy_reader args => Legacy.jina_reader JSON_stringify args
  | call_legacy_search args => Legacy.jina_search formatResults args
  | call_legacy_fact_check args => Legacy.jina_fact_check JSON_stringify args
  end.
End invoke.

(** The requests an invocation issues and what it hands back. *)
Definition requests {A} (c : Async A) (w : World) : list Request := (c w).1.
Definition outcome {A} (c : Async A) (w : World) : Error + A := (c w).2.

(** The credential in force: the variable is set and not empty. *)
Definition credential (w : World) : option jsstring :=
  match JINA_API_KEY w with
  | Some key => if String_truthy key then Some key else None
  | None => None
  end.

(** The read invocations that go straight to the raw-content host. *)
Definition bypasses (call : ToolCall) : bool :=
  match call with
  | call_jina_reader args => shouldBypassJina (handleGitHubUrl (reader_url args))
  | _ => false
  end.

(** * The vocabulary of the theorems

    Closed forms and declarative readings of what the code above computes:
    the theorems below relate them to the code. *)

(** ** Greedy runs and the blob pattern in closed form *)

(** The longest prefix of [s] whose code units all satisfy [p]: what a
    greedy quantifier takes first. *)
Fixpoint run (p : code_unit -> bool) (s : jsstring) : jsstring :=
  match s with
  | c :: s' => if p c then c :: run p s' else []
  | [] => []
  end.

Definition rest (p : code_unit -> bool) (s : jsstring) : jsstring :=
  drop (length (run p s)) s.

(** A continuation that fails whenever the next code unit is in [p]. *)
Definition rejects (p : code_unit -> bool) (k : Cont) : Prop :=
  ∀ i c t caps, p c = true → k i (c :: t) caps = None.

(** A continuation that cannot fail. *)
Definition succeeds (k : Cont) : Prop := ∀ i s caps, is_Some (k i s caps).

(** The text a successful attempt of the blob pattern reads at the start of
    [s], in closed form. *)
Definition blob_groups (whole owner repo ref path : jsstring) : MatchResult :=
  <[0%nat := whole]> (<[4%nat := path]> (<[3%nat := ref]> (<[2%nat := repo]>
    (<[1%nat := owner]> ∅)))).

Definition blob_at (s : jsstring) : option MatchResult :=
  if startsWith s (lit "github.com/") then
    let s1 := drop 11 s in
    let owner := run not_slash s1 in
    if bool_decide (1 ≤ length owner)%nat then
      if startsWith (rest not_slash s1) (lit "/") then
        let s2 := drop 1 (rest not_slash s1) in
        let repo := run not_slash s2 in
        if bool_decide (1 ≤ length repo)%nat then
          if startsWith (rest not_slash s2) (lit "/blob/") then
            let s3 := drop 6 (rest not_slash s2) in
            let ref := run not_slash s3 in
            if bool_decide (1 ≤ length ref)%nat then
              let s4 := drop 1 (rest not_slash s3) in
              let path := run dot s4 in
              let n := (length s - length (rest dot s4))%nat in
              Some (blob_groups (take n s) owner repo ref path)
            else None
          else None
        else None
      else None
    else None
  else None.

(** ** The blob pattern, declaratively *)

(** An owner, repository or ref: one or more code units, none a slash. *)
Definition segment (w : jsstring) : Prop := w ≠ [] ∧ slash ∉ w.

Definition line_terminator (c : code_unit) : Prop := dot c = false.

(** What follows the ref: nothing, or a slash and the path, which runs to
    the end of the input or to the first line terminator. *)
Inductive blob_tail : jsstring → jsstring → Prop :=
| tail_none : blob_tail [] []
| tail_path path after :
    Forall (fun c => ¬ line_terminator c) path →
    match after with [] => True | c :: _ => line_terminator c end →
    blob_tail (slash :: path ++ after) path.

(** [s] begins with github.com/<owner>/<repo>/blob/<ref>/<path>. *)
Definition BlobAt (s owner repo ref path : jsstring) : Prop :=
  ∃ tail,
    s = lit "github.com/" ++ owner ++ lit "/" ++ repo ++ lit "/blob/" ++ ref ++ tail ∧
    segment owner ∧ segment repo ∧ segment ref ∧ blob_tail tail path.

(** The first place of [url] where the pattern matches reads these groups. *)
Definition BlobUrl (url owner repo ref path : jsstring) : Prop :=
  ∃ pre s,
    url = pre ++ s ∧ BlobAt s owner repo ref path ∧
    ∀ pre' s', url = pre' ++ s' → (length pre' < length pre)%nat →
               ¬ ∃ o r f p, BlobAt s' o r f p.

(** The same through the matcher: [url.match(...)] succeeds with these four
    groups. *)
Definition matches_blob (url owner repo ref path : jsstring) : Prop :=
  ∃ match_ : MatchResult,
    String_match url blob_pattern = Some match_ ∧
    match_ !! 1%nat = Some owner ∧ match_ !! 2%nat = Some repo ∧
    match_ !! 3%nat = Some ref ∧ match_ !! 4%nat = Some path.

(** ** The commit-hash pattern, declaratively *)

Definition hex_digit (c : code_unit) : Prop :=
  (48 ≤ c ≤ 57 ∨ 97 ≤ c ≤ 102 ∨ 65 ≤ c ≤ 70)%N.

(** A 40-character hexadecimal string. *)
Definition commit_hash (ref : jsstring) : Prop :=
  length ref = 40%nat ∧ Forall hex_digit ref.

(** ** The gate of line 66, declaratively *)

(** [p] occurs in [s]. *)
Definition contains (s p : jsstring) : Prop := ∃ a b, s = a ++ p ++ b.

(** A URL holds a GitHub blob reference when both markers occur in it. *)
Definition blob_reference (url : jsstring) : Prop :=
  contains url (lit "github.com") ∧ contains url (lit "/blob/").

(** ** The tables of section 4.3 of the specification *)

(** The settings the two tables of the specification speak of, and the
    header that carries each. *)
Inductive Directive :=
| engine | timeout | links_summary | images_summary
| target_selector | remove_selector | return_format.

Definition header_name (d : Directive) : jsstring :=
  match d with
  | engine => lit "X-Engine"
  | timeout => lit "X-Timeout"
  | links_summary => lit "X-With-Links-Summary"
  | images_summary => lit "X-With-Images-Summary"
  | target_selector => lit "X-Target-Selector"
  | remove_selector => lit "X-Remove-Selector"
  | return_format => lit "X-Return-Format"
  end.

(** The settings of the mode table; [return_format] is the one setting that
    belongs to the formats alone. *)
Definition mode_directive (d : Directive) : bool :=
  match d with return_format => false | _ => true end.

(** The mode table, row by row. *)
Definition mode_table (mode : ExtractionMode) : list (Directive * string) :=
  match mode with
  | STANDARD =>
      [(engine, "direct"); (links_summary, "true"); (timeout, "10")]
  | COMPREHENSIVE =>
      [(engine, "browser"); (links_summary, "true"); (images_summary, "true");
       (timeout, "15")]
  | CLEAN_CONTENT =>
      [(engine, "browser"); (target_selector, "main,article,.content");
       (remove_selector, "nav,header,footer,.sidebar,.ads"); (timeout, "15")]
  end.

(** The format table, row by row. *)
Definition format_table (format : OutputFormat) : list (Directive * string) :=
  match format with
  | DEFAULT => []
  | MARKDOWN => [(return_format, "markdown")]
  | TEXT => [(return_format, "text")]
  | STRUCTURED =>
      [(return_format, "markdown"); (links_summary, "true"); (images_summary, "true")]
  end.

(** The headers a list of rows stands for. *)
Definition rows (l : list (Directive * string)) : Headers :=
  list_to_map ((fun r => (header_name r.1, lit r.2)) <$> l).

(** The content-type and accept headers. *)
Definition json_headers : Headers :=
  rows [] ∪ {[ lit "Content-Type" := lit "application/json" ]}
          ∪ {[ lit "Accept" := lit "application/json" ]}.

(** ** The queries that have a URL encoding *)

(** No surrogate stands without its partner. *)
Inductive well_formed : jsstring → Prop :=
| wf_nil : well_formed []
| wf_unit c s :
    lead_surrogate c = false → trail_surrogate c = false →
    well_formed s → well_formed (c :: s)
| wf_pair c d s :
    lead_surrogate c = true → trail_surrogate d = true →
    well_formed s → well_formed (c :: d :: s).

(** ** What a tool call sends and hands back *)

(** The header set with the credential in force added. *)
Definition with_credential (w : World) (h : Headers) : Headers :=
  match credential w with
  | Some key => <[lit "Authorization" := lit "Bearer " ++ key]> h
  | None => h
  end.

(** The header set with the timeout override, where one is supplied and is
    not zero. *)
Definition with_timeout (t : option Z) (h : Headers) : Headers :=
  match t with
  | Some t => if Number_truthy t then <[lit "X-Timeout" := Number_toString t]> h else h
  | None => h
  end.

(** The header set with the site restriction, where one is given and is not
    empty. *)
Definition with_site (siteFilter : option jsstring) (h : Headers) : Headers :=
  match siteFilter with
  | Some site => if String_truthy site then <[lit "X-Site" := lit "https://" ++ site]> h else h
  | None => h
  end.

(** The one text segment of a result. *)
Definition result_text (r : ToolResult) : option json :=
  match content r with
  | [c] => Some (text c)
  | _ => None
  end.

(** [v.key] where it cannot throw. *)
Definition field (v : json) (key : jsstring) : option json :=
  match v with
  | JObj fields => own_property fields key
  | _ => None
  end.

(** The nested content of a payload, where it is present and truthy. *)
Definition extracted_content (data : json) : option json :=
  match field data (lit "data") with
  | Some d =>
      match field d (lit "content") with
      | Some c => if truthy c then Some c else None
      | None => None
      end
  | None => None
  end.

Definition placeholder : json := JStr (lit "No content extracted").

(** An error result whose text is [msg] after a fixed prefix: none in
    index.js, and Error: in the legacy handlers. *)
Definition failure (prefix msg : jsstring) : ToolResult :=
  {| content := [{| type := lit "text"; text := JStr (prefix ++ msg) |}]; isError := true |}.

(** A result that reports an error and explains it with a text that holds
    [what]. *)
Definition explains (result : ToolResult) (what : jsstring) : Prop :=
  isError result = true ∧
  ∃ msg, result_text result = Some (JStr msg) ∧ contains msg what.

(** ** The worlds of the examples *)

(** JSON texts: a quoted string, a member and an object. *)
Definition dq : jsstring := [34%N].
Definition quoted (s : string) : jsstring := dq ++ lit s ++ dq.
Definition member (key : string) (value : jsstring) : jsstring := quoted key ++ lit ":" ++ value.
Definition braces (members : jsstring) : jsstring := lit "{" ++ members ++ lit "}".

(** The examples below leave the serializer of request bodies aside: none of
    them looks at a body. *)
Definition any_stringify : json → nat → jsstring := fun _ _ => [].

(** And so for the result layout of the legacy search. *)
Definition any_layout : jsstring → Z → Legacy.ReturnFormat → Error + jsstring :=
  fun body _ _ => inr body.

(** A network on which every request gets the same answer. *)
Definition answering (key : option jsstring) (answer : Error + Response) : World :=
  {| JINA_API_KEY := key; network := fun _ => answer |}.

Section requests.
Variable JSON_stringify : json → nat → jsstring.
Variable formatResults : jsstring → Z → Legacy.ReturnFormat → Error + jsstring.

(** The request of the bypass path. *)
Definition direct_request (args : ReaderArgs) : Request :=
  {| url := convertedUrl (handleGitHubUrl (reader_url args));
     method := GET; headers := ∅; body := None |}.

(** The request of the reader on any other URL. *)
Definition reader_request (w : World) (args : ReaderArgs) : Request :=
  {| url := lit "https://r.jina.ai/"; method := POST;
     headers :=
       with_credential w
         (with_timeout (customTimeout args)
            (buildJinaHeaders (default STANDARD (mode args))
               (default DEFAULT (format args)) false));
     body := Some (JSON_stringify (JObj [(lit "url", JStr (reader_url args))]) 0) |}.

(** The request of a search whose query encodes to [q]. *)
Definition search_request (w : World) (args : SearchArgs) (q : jsstring) : Request :=
  {| url := lit "https://s.jina.ai/?q=" ++ q; method := GET;
     headers :=
       with_credential w (with_site (siteFilter args) (assign ∅ "X-Respond-With" "no-content"));
     body := None |}.

Definition legacy_reader_request (w : World) (args : Legacy.ReaderArgs) : Request :=
  {| url := lit "https://r.jina.ai/"; method := POST;
     headers :=
       with_credential w
         (<[lit "X-Return-Format" := Legacy.toLowerCase (Legacy.format args)]>
            (assign (assign (assign (assign ∅ "Content-Type" "application/json")
                         "Accept" "application/json")
                    "X-With-Links-Summary" (if Legacy.withLinks args then "true" else "false"))
               "X-With-Images-Summary" (if Legacy.withImages args then "true" else "false")));
     body := Some (JSON_stringify (JObj [(lit "url", JStr (Legacy.url args))]) 0) |}.

Definition legacy_search_request (w : World) (q : jsstring) : Request :=
  {| url := lit "https://s.jina.ai/?q=" ++ q; method := GET;
     headers :=
       with_credential w
         (assign (assign ∅ "Accept" "application/json") "X-Respond-With" "no-content");
     body := None |}.

Definition legacy_fact_check_request (w : World) (args : Legacy.FactCheckArgs) : Request :=
  {| url := lit "https://g.jina.ai/"; method := POST;
     headers :=
       with_credential w
         (assign (assign ∅ "Content-Type" "application/json") "Accept" "application/json");
     body :=
       Some (JSON_stringify
               (JObj [(lit "statement", JStr (Legacy.statement args));
                      (lit "deepdive", JBool (Legacy.deepdive args))]) 0) |}.

Definition left_error {A} (r : Error + A) : option Error :=
  match r with inl e => Some e | inr _ => None end.

(** The error of reading a 2xx body as JSON, for the calls that read it
    so; the legacy search parses inside the lines left as a parameter. *)
Definition body_error (call : ToolCall) (r : Response) : option Error :=
  match call with
  | call_jina_reader args =>
      if shouldBypassJina (handleGitHubUrl (reader_url args)) then None
      else left_error (json_ r)
  | call_jina_search _ => None
  | call_legacy_reader _ | call_legacy_fact_check _ => left_error (json_ r)
  | call_legacy_search args =>
      left_error (formatResults (text_ r) (Legacy.count args) (Legacy.returnFormat args))
  end.

(** The calls whose query has a URL encoding; the other calls send no
    query. *)
Definition encodable (call : ToolCall) : bool :=
  match call with
  | call_jina_search args => bool_decide (left_error (encodeURIComponent (query args)) = None)
  | call_legacy_search args =>
      bool_decide (left_error (encodeURIComponent (Legacy.query args)) = None)
  | _ => true
  end.

(** The requests of a call: one, or none when the query of a search has
    no URL encoding. *)
Definition sent (w : World) (call : ToolCall) : list Request :=
  match call with
  | call_jina_reader args =>
      if shouldBypassJina (handleGitHubUrl (reader_url args))
      then [direct_request args] else [reader_request w args]
  | call_jina_search args =>
      match encodeURIComponent (query args) with
      | inr q => [search_request w args q]
      | inl _ => []
      end
  | call_legacy_reader args => [legacy_reader_request w args]
  | call_legacy_search args =>
      match encodeURIComponent (Legacy.query args) with
      | inr q => [legacy_search_request w q]
      | inl _ => []
      end
  | call_legacy_fact_check args => [legacy_fact_check_request w args]
  end.

(** The message of a remote HTTP error. *)
Definition http_error (api : string) (status : Z) (detail : jsstring) : jsstring :=
  lit api ++ lit " error (" ++ Number_toString status ++ lit "): " ++ detail.
End requests.

(** * The rest of the two source files

    Lines 133 to 170 of the legacy search handler, the layout of the
    search results, and the startup function of index.js. *)

(** ** Steps that may throw, outside the asynchronous functions *)

Definition and_then {A B} (r : Error + A) (k : A → Error + B) : Error + B :=
  match r with
  | inl e => inl e
  | inr a => k a
  end.

Notation "'let?' x ':=' r 'in' k" := (and_then r (fun x => k))
  (at level 10, x name, r at level 100, k at level 200).

Definition TypeError (msg : jsstring) : Error := {| message := msg |}.

(** [array.map(f)] for a callback that may throw: the elements are visited
    in order and the first error ends the visit. *)
Fixpoint Array_map {A B} (f : nat → A → Error + B) (index : nat) (l : list A)
    : Error + list B :=
  match l with
  | [] => inr []
  | x :: l' =>
      let? y := f index x in
      let? ys := Array_map f (S index) l' in
      inr (y :: ys)
  end.

(** [array.join(sep)] on an array of strings *)
Definition Array_join (sep : jsstring) (l : list jsstring) : jsstring :=
  match l with
  | [] => []
  | s :: l' => s ++ concat ((fun t => sep ++ t) <$> l')
  end.

(** [delete object.key] *)
Definition delete_property (fields : list (jsstring * json)) (key : jsstring)
    : list (jsstring * json) :=
  filter (fun kv => kv.1 ≠ key) fields.

Definition LF : jsstring := [10%N].

(** ** The layout of the legacy search results (part_000, lines 133 to 170) *)

Section results.
(** [JSON.parse] *)
Variable JSON_parse : jsstring → Error + json.

(** [Number.prototype.toString] on any number. *)
Variable Number_prototype_toString : Q → jsstring.

(** [v > count] for the value of a property named length that an object
    of the payload has of its own: the comparison converts [v] to a
    number first, and may throw. *)
Variable greater_than : json → Z → Error + bool.

(** A value inside a template literal.  An array is the texts of its
    elements with commas between them, [null] counting as the empty text;
    an object is the text [object Object], unless a property named
    toString of its own (never a function, in a parsed payload) stands in
    the way of the conversion. *)
Fixpoint ToString_value (v : json) : Error + jsstring :=
  match v with
  | JNull => inr (lit "null")
  | JBool b => inr (lit (if b then "true" else "false"))
  | JNum q => inr (Number_prototype_toString q)
  | JStr s => inr s
  | JArr items =>
      let? parts :=
        (fix elements (l : list json) : Error + list jsstring :=
           match l with
           | [] => inr []
           | x :: l' =>
               let? s := match x with JNull => inr [] | _ => ToString_value x end in
               let? ss := elements l' in
               inr (s :: ss)
           end) items in
      inr (Array_join (lit ",") parts)
  | JObj fields =>
      match own_property fields (lit "toString") with
      | Some _ => inl (TypeError (lit "Cannot convert object to primitive value"))
      | None => inr (lit "[object Object]")
      end
  end.

Definition not_a_function (method : string) : Error :=
  TypeError (lit "results." ++ lit method ++ lit " is not a function").

(** Lines 139 to 141, and what the call of [results.map] on line 144
    needs: an array.  Any other value has no [map] to call (a string has a
    [slice], an object has neither), and the call throws before a result
    is looked at.  The count is an integer, as in the arguments of the
    handler. *)
Definition limited (results : json) (count : Z) : Error + list json :=
  match results with
  | JArr items =>
      if Number_truthy count && (0 <? count) && (count <? Z.of_nat (length items))
      then inr (take (Z.to_nat count) items)
      else inr items
  | JObj fields =>
      if Number_truthy count && (0 <? count) then
        match own_property fields (lit "length") with
        | Some v =>
            let? more := greater_than v count in
            inl (not_a_function (if more : bool then "slice" else "map"))
        | None => inl (not_a_function "map")
        end
      else inl (not_a_function "map")
  | _ => inl (not_a_function "map")
  end.

(** The callback of lines 144 to 150.  The five properties read of a
    result here and below (usage, title, url, description, date) are
    names no built-in prototype defines. *)
Definition without_usage (result : json) : Error + json :=
  let? usage := get result (lit "usage") in
  match usage, result with
  | Some usage, JObj fields =>
      if truthy usage then inr (JObj (delete_property fields (lit "usage")))
      else inr result
  | _, _ => inr result
  end.

(** [${result.key || 'fallback'}] *)
Definition property_or (result : json) (key fallback : string) : Error + jsstring :=
  let? v := get result (lit key) in
  ToString_value (or_else v (JStr (lit fallback))).

(** [${result.date ? `Date: ${result.date}` : ''}] *)
Definition date_line (result : json) : Error + jsstring :=
  let? date := get result (lit "date") in
  match date with
  | Some date =>
      if truthy date then
        let? date := ToString_value date in
        inr (lit "Date: " ++ date)
      else inr []
  | None => inr []
  end.

(** The callback of line 156. *)
Definition markdown_entry (index : nat) (result : json) : Error + jsstring :=
  let? title := property_or result "title" "Untitled" in
  let? url := property_or result "url" "" in
  let? description := property_or result "description" "" in
  let? date := date_line result in
  inr (Number_toString (Z.of_nat index + 1) ++ lit ". **" ++ title ++ lit "**" ++ LF ++
       lit "   " ++ url ++ LF ++
       lit "   " ++ description ++ LF ++
       lit "   " ++ date ++ LF).

(** The callback of lines 159 to 164; the line breaks and the indentation
    inside the template literal are part of the text. *)
Definition html_entry (result : json) : Error + jsstring :=
  let? title := property_or result "title" "Untitled" in
  let? href := property_or result "url" "" in
  let? url := property_or result "url" "" in
  let? description := property_or result "description" "" in
  let? date := date_line result in
  inr (lit "<li><strong>" ++ title ++ lit "</strong><br>" ++ LF ++
       lit "           <a href=" ++ dq ++ href ++ dq ++ lit ">" ++ url ++ lit "</a><br>" ++ LF ++
       lit "           " ++ description ++ lit "<br>" ++ LF ++
       lit "           " ++ date ++ lit "</li>").

(** The callback of line 168. *)
Definition text_entry (index : nat) (result : json) : Error + jsstring :=
  let? title := property_or result "title" "Untitled" in
  let? url := property_or result "url" "" in
  let? description := property_or result "description" "" in
  let? date := date_line result in
  inr (Number_toString (Z.of_nat index + 1) ++ lit ". " ++ title ++ LF ++
       lit "   " ++ url ++ LF ++
       lit "   " ++ description ++ LF ++
       lit "   " ++ date).

(** Lines 152 to 170: the results laid out in the format asked for. *)
Definition arranged (results : list json) (returnFormat : Legacy.ReturnFormat)
    : Error + jsstring :=
  match returnFormat with
  | Legacy.as_markdown =>
      let? entries := Array_map markdown_entry 0 results in
      inr (Array_join LF entries)
  | Legacy.as_html =>
      let? entries := Array_map (fun _ => html_entry) 0 results in
      inr (lit "<ol>" ++ Array_join [] entries ++ lit "</ol>")
  | Legacy.as_text =>
      let? entries := Array_map text_entry 0 results in
      inr (Array_join (LF ++ LF) entries)
  end.

(** Lines 143 to 170: the results are cleaned, then laid out. *)
Definition written (results : list json) (returnFormat : Legacy.ReturnFormat)
    : Error + jsstring :=
  let? results := Array_map (fun _ => without_usage) 0 results in
  arranged results returnFormat.

(** Lines 136 to 170, from the parsed payload on. *)
Definition layout (data : json) (count : Z) (returnFormat : Legacy.ReturnFormat)
    : Error + jsstring :=
  let? data_data := get data (lit "data") in
  let results := or_else data_data (JArr []) in
  let? results := limited results count in
  written results returnFormat.

(** Lines 133 to 170: the body of a 2xx response to the text of the tool
    result. *)
Definition formattedOutput (text : jsstring) (count : Z)
    (returnFormat : Legacy.ReturnFormat) : Error + jsstring :=
  let? data := JSON_parse text in
  layout data count returnFormat.

End results.

(** ** Startup (index.js, lines 332 to 353) *)

(** What is handed to the console: a text, or the error caught. *)
Inductive ConsoleArgument :=
| printed (s : jsstring)
| caught (e : Error).

Inductive ConsoleCall :=
| console_error (arguments : list ConsoleArgument)
| console_warn (arguments : list ConsoleArgument).

(** What startup does: the calls of the console in order, and the exit code
    when the process is ended. *)
Record Startup := {
  console : list ConsoleCall;
  exit : option Z
}.

(** The call of line 339. *)
Definition short_key_warning : ConsoleCall :=
  console_warn
    [printed (lit "Warning: JINA_API_KEY seems too short. Please verify your API key.")].

(** [main], given how creating the transport and connecting the server to
    it ends (lines 346 and 347): the [try] block, then the [catch] block.
    The handler of lines 356 to 359 is for a rejection of [main] itself,
    which the [catch] block rules out. *)
Definition main (connect : Error + ()) (w : World) : Startup :=
  let attempt : list ConsoleCall * (Error + ()) :=
    match (getJinaApiKey w).2 with
    | inl error => ([], inl error)
    | inr apiKey =>
        let log :=
          match apiKey with
          | Some apiKey =>
              console_error
                [printed (lit "Jina AI API key found with length " ++
                          Number_toString (Z.of_nat (length apiKey)))] ::
              (if (length apiKey <? 10)%nat then [short_key_warning] else [])
          | None =>
              [console_error
                 [printed (lit "No Jina AI API key found. Some features may be limited.")]]
          end in
        (log, connect)
    end in
  match attempt with
  | (log, inr _) => {| console := log; exit := None |}
  | (log, inl error) =>
      {| console := log ++ [console_error [printed (lit "Server error:"); caught error]];
         exit := Some 1 |}
  end.

(** ** More vocabulary *)

(** [p] occurs in [s] for the first time after [a], and [b] follows. *)
Definition first_occurrence (s p a b : jsstring) : Prop :=
  s = a ++ p ++ b ∧ ∀ a' b', s = a' ++ p ++ b' → (length a ≤ length a')%nat.

(** No place of [url] has the shape of the blob pattern. *)
Definition no_blob (url : jsstring) : Prop :=
  ∀ pre s owner repo ref path, url = pre ++ s → ¬ BlobAt s owner repo ref path.

(** A string of 16-bit code units. *)
Definition utf16 (s : jsstring) : Prop := Forall (fun c => (c < 65536)%N) s.

(** The code units [encodeURIComponent] writes: the unreserved ones, which
    hold the hexadecimal digits, and the percent sign. *)
Definition uri_safe (c : code_unit) : Prop := uriUnreserved c = true ∨ c = 37%N.

(** The query of a search. *)
Definition search_query (call : ToolCall) : option jsstring :=
  match call with
  | call_jina_search args => Some (query args)
  | call_legacy_search args => Some (Legacy.query args)
  | _ => None
  end.

(** The service a call names in the message of an HTTP error, the detail
    it quotes from the response, and the prefix of its error texts. *)
Definition api (call : ToolCall) : string :=
  match call with
  | call_jina_reader _ => if bypasses call then "GitHub API" else "Jina Reader API"
  | call_jina_search _ => "Jina Search API"
  | call_legacy_reader _ => "Jina Reader API"
  | call_legacy_search _ => "Jina Search API"
  | call_legacy_fact_check _ => "Jina Fact-Check API"
  end.

Definition detail (call : ToolCall) (r : Response) : jsstring :=
  if bypasses call then statusText r else text_ r.

Definition error_prefix (call : ToolCall) : jsstring :=
  match call with
  | call_jina_reader _ | call_jina_search _ => []
  | _ => lit "Error: "
  end.

(** The timeout of a mode in the table. *)
Definition mode_timeout (mode : ExtractionMode) : string :=
  match mode with
  | STANDARD => "10"
  | COMPREHENSIVE | CLEAN_CONTENT => "15"
  end.

(** The names [buildJinaHeaders] may set. *)
Definition reader_header_names : list jsstring :=
  lit "Content-Type" :: lit "Accept" ::
  (header_name <$> [engine; timeout; links_summary; images_summary;
                    target_selector; remove_selector; return_format]).

(** The calls that read a property of the JSON body of the response. *)
Definition reads_content (call : ToolCall) : bool :=
  match call with
  | call_jina_reader _ => negb (bypasses call)
  | call_legacy_reader _ => true
  | _ => false
  end.

(** A result without its usage property. *)
Definition strip_usage (result : json) : json :=
  match result with
  | JObj fields => JObj (delete_property fields (lit "usage"))
  | _ => result
  end.

(** The results the layout writes out: the first [count] of them when the
    count is positive, and all of them when it is not. *)
Definition within (count : Z) (results : list json) : list json :=
  if 0 <? count then take (Z.to_nat count) results else results.

(** A result as the search service sends it: an object whose title, url,
    description and date are strings, where it has them. *)
Definition text_or_absent (v : option json) : Prop :=
  match v with
  | Some (JStr _) | None => True
  | Some _ => False
  end.

Definition plain (result : json) : Prop :=
  match result with
  | JObj fields =>
      Forall (fun key => text_or_absent (own_property fields key))
             [lit "title"; lit "url"; lit "description"; lit "date"]
  | _ => False
  end.

(** The callback of a format: what it writes for the result of index [i]. *)
Definition entry (number : Q → jsstring) (returnFormat : Legacy.ReturnFormat) (i : nat)
    (result : json) : Error + jsstring :=
  match returnFormat with
  | Legacy.as_markdown => markdown_entry number i result
  | Legacy.as_text => text_entry number i result
  | Legacy.as_html => html_entry number result
  end.

(** How the entries of a layout go together, and how the entry of index
    [i] begins, in each format. *)
Definition joined (returnFormat : Legacy.ReturnFormat) (entries : list jsstring) : jsstring :=
  match returnFormat with
  | Legacy.as_markdown => Array_join LF entries
  | Legacy.as_text => Array_join (LF ++ LF) entries
  | Legacy.as_html => lit "<ol>" ++ Array_join [] entries ++ lit "</ol>"
  end.

Definition entry_head (returnFormat : Legacy.ReturnFormat) (i : nat) : jsstring :=
  match returnFormat with
  | Legacy.as_markdown => Number_toString (Z.of_nat i + 1) ++ lit ". **"
  | Legacy.as_text => Number_toString (Z.of_nat i + 1) ++ lit ". "
  | Legacy.as_html => lit "<li><strong>"
  end.


(** The error of reading the usage property of a result that is null. *)
Definition null_result : Error :=
  TypeError (lit "Cannot read properties of null (reading 'usage')").

(** A request without its Authorization header. *)
Definition anonymous (request : Request) : Request :=
  {| url := url request; method := method request;
     headers := delete (lit "Authorization") (headers request); body := body request |}.

(** ** More worlds for the examples *)

(** The examples leave the printing of numbers and the comparison of a
    length property aside, and fix what the body of a response parses to. *)
Definition any_number : Q → jsstring := fun _ => [].
Definition never_greater : json → Z → Error + bool := fun _ _ => inr false.

(** A serializer that prints every value as the same text. *)
Definition printed_as (s : string) : json → nat → jsstring := fun _ _ => lit s.

(** A 2xx response with a JSON body. *)
Definition ok_json (body : string) (data : json) : Response :=
  {| status := 200; statusText := lit "OK"; text_ := lit body; json_ := inr data |}.

(** * The theorems *)

(** ** Strings *)

Section string_facts.
Implicit Types s p t w : jsstring.

Lemma startsWith_app p t : startsWith (p ++ t) p = true.
Proof. induction p as [|a p IH]; simpl; [done|]. by rewrite N.eqb_refl. Qed.

Lemma startsWith_inv s p : startsWith s p = true → s = p ++ drop (length p) s.
Proof.
  revert s. induction p as [|a p IH]; intros [|c s]; simpl; try done.
  intros [H1 H2]%andb_true_iff. apply N.eqb_eq in H1 as ->. f_equal. auto.
Qed.

Lemma startsWith_spec s p : startsWith s p = true ↔ ∃ t, s = p ++ t.
Proof.
  split.
  - intros H. eexists. by apply startsWith_inv.
  - intros [t ->]. apply startsWith_app.
Qed.

Lemma String_includes_unfold s p :
  String_includes s p =
  startsWith s p || match s with [] => false | _ :: s' => String_includes s' p end.
Proof. by destruct s. Qed.

Lemma String_includes_spec s p :
  String_includes s p = true ↔ ∃ a b, s = a ++ p ++ b.
Proof.
  split.
  - induction s as [|c s IH]; rewrite String_includes_unfold.
    + intros [H|H]%orb_true_iff; [|done].
      apply startsWith_spec in H as [t ->]. by exists [], t.
    + intros [H|H]%orb_true_iff.
      * apply startsWith_spec in H as [t ->]. by exists [], t.
      * destruct (IH H) as (a & b & ->). by exists (c :: a), b.
  - intros (a & b & ->). induction a as [|c a IH]; rewrite String_includes_unfold.
    + simpl. by rewrite startsWith_app.
    + simpl. rewrite IH. apply orb_true_r.
Qed.

Lemma String_replace_unfold s p r :
  String_replace s p r =
  if startsWith s p then r ++ drop (length p) s
  else match s with [] => [] | c :: s' => c :: String_replace s' p r end.
Proof. by destruct s. Qed.
End string_facts.

(** ** Greedy runs *)

Section run_facts.
Variable p : code_unit -> bool.
Implicit Types s w t : jsstring.

Lemma run_rest s : s = run p s ++ rest p s.
Proof.
  unfold rest. induction s as [|c s IH]; simpl; [done|].
  destruct (p c); simpl; [by f_equal | done].
Qed.

Lemma run_Forall s : Forall (fun c => p c = true) (run p s).
Proof.
  induction s as [|c s IH]; simpl; [constructor|].
  destruct (p c) eqn:E; by constructor.
Qed.

Lemma rest_head s c t : rest p s = c :: t → p c = false.
Proof.
  unfold rest. induction s as [|a s IH]; simpl; [done|].
  destruct (p a) eqn:E; simpl; [done|]. by intros [= -> _].
Qed.

Lemma run_app w t :
  Forall (fun c => p c = true) w →
  match t with [] => True | c :: _ => p c = false end →
  run p (w ++ t) = w ∧ rest p (w ++ t) = t.
Proof.
  intros Hw Ht. unfold rest. induction Hw as [|a w Ha Hw IH]; simpl.
  - destruct t as [|c t]; simpl; [done|]. by rewrite Ht.
  - rewrite Ha. simpl. destruct IH as [-> IH]. split; [done|].
    by rewrite drop_app_length.
Qed.
End run_facts.

(** ** The matcher on a quantified class *)

Section matcher_facts.
Implicit Types (k : Cont) (s : jsstring) (caps : MatchResult).

Lemma m_rep_short p lo k i s caps :
  (length (run p s) < lo)%nat → m_rep p lo None k i s caps = None.
Proof.
  revert lo i. induction s as [|c s IH]; intros lo i Hlo; simpl in *.
  - destruct lo; [lia | done].
  - destruct (p c); simpl in *.
    + rewrite IH; [|lia]. destruct lo; [lia | done].
    + destruct lo; [lia | done].
Qed.

Lemma m_rep_reject p lo k i s caps :
  rejects p k → (lo ≤ length (run p s))%nat →
  m_rep p lo None k i s caps = k (i + length (run p s))%nat (rest p s) caps.
Proof.
  intros Hk. unfold rest. revert lo i.
  induction s as [|c s IH]; intros lo i Hlo; simpl in *.
  - assert (lo = O) as -> by lia. by rewrite Nat.add_0_r.
  - destruct (p c) eqn:E; simpl in *.
    + rewrite IH; [|lia]. rewrite Nat.add_succ_r. simpl.
      destruct (k _ _ _) eqn:Ek; [done|].
      destruct lo; [|done]. by rewrite Hk.
    + assert (lo = O) as -> by lia. by rewrite Nat.add_0_r.
Qed.

Lemma m_rep_accept p lo k i s caps r :
  (lo ≤ length (run p s))%nat →
  k (i + length (run p s))%nat (rest p s) caps = Some r →
  m_rep p lo None k i s caps = Some r.
Proof.
  unfold rest. revert lo i.
  induction s as [|c s IH]; intros lo i Hlo; simpl in *.
  - assert (lo = O) as -> by lia. by rewrite Nat.add_0_r.
  - destruct (p c) eqn:E; simpl in *.
    + rewrite Nat.add_succ_r. intros Hk. by rewrite (IH _ (S i)); [|lia|].
    + assert (lo = O) as -> by lia. by rewrite Nat.add_0_r.
Qed.

Lemma m_rep_exact p n k i s caps :
  m_rep p n (Some n) k i s caps =
  if bool_decide (n ≤ length s)%nat && forallb p (take n s)
  then k (i + n)%nat (drop n s) caps else None.
Proof.
  revert i s. induction n as [|n IH]; intros i s.
  - rewrite Nat.add_0_r. destruct s as [|c s]; simpl; [done|].
    by rewrite andb_false_r.
  - destruct s as [|c s]; simpl; [done|].
    rewrite andb_true_r. destruct (p c) eqn:E; simpl.
    + rewrite IH, Nat.add_succ_r. simpl.
      repeat case_bool_decide; try lia; simpl; [|done].
      destruct (forallb _ _); [by destruct (k _ _ _) | done].
    + by rewrite andb_false_r.
Qed.
End matcher_facts.

(** ** Groups, and the pieces of the blob pattern *)

Section group_facts.
Implicit Types (k : Cont) (s : jsstring) (caps : MatchResult).

Lemma take_run p s : take (length (run p s)) s = run p s.
Proof. rewrite (run_rest p s) at 2. by rewrite take_app_length. Qed.

Lemma add_sub_l (i n : nat) : (i + n - i = n)%nat.
Proof. lia. Qed.

Lemma m_rep_total p lo k i s caps :
  succeeds k →
  m_rep p lo None k i s caps =
  if bool_decide (lo ≤ length (run p s))%nat
  then k (i + length (run p s))%nat (rest p s) caps else None.
Proof.
  intros Hk. case_bool_decide.
  - destruct (Hk (i + length (run p s))%nat (rest p s) caps) as [r Hr].
    rewrite Hr. by apply m_rep_accept.
  - apply m_rep_short. lia.
Qed.

Lemma m_Grp_Plus_reject n p k i s caps :
  rejects p k →
  m (Grp n (Plus p)) k i s caps =
  if bool_decide (1 ≤ length (run p s))%nat
  then k (i + length (run p s))%nat (rest p s) (<[n := run p s]> caps) else None.
Proof.
  intros Hk. cbn [m Plus]. case_bool_decide.
  - rewrite m_rep_reject; [|by intros ????; apply Hk|done].
    by rewrite add_sub_l, take_run.
  - apply m_rep_short. lia.
Qed.

Lemma m_Grp_Plus_total n p k i s caps :
  succeeds k →
  m (Grp n (Plus p)) k i s caps =
  if bool_decide (1 ≤ length (run p s))%nat
  then k (i + length (run p s))%nat (rest p s) (<[n := run p s]> caps) else None.
Proof.
  intros Hk. cbn [m Plus]. rewrite m_rep_total; [|by intros ???; apply Hk].
  by rewrite add_sub_l, take_run.
Qed.

Lemma m_Grp_Star_total n p k i s caps :
  succeeds k →
  m (Grp n (Star p)) k i s caps =
  k (i + length (run p s))%nat (rest p s) (<[n := run p s]> caps).
Proof.
  intros Hk. cbn [m Star]. rewrite m_rep_total; [|by intros ???; apply Hk].
  rewrite bool_decide_eq_true_2 by lia. by rewrite add_sub_l, take_run.
Qed.

Lemma m_Opt_total p k i s caps :
  succeeds k →
  m (Opt p) k i s caps =
  match s with
  | c :: t => if p c then k (S i) t caps else k i s caps
  | [] => k i s caps
  end.
Proof.
  intros Hk. destruct s as [|c t]; [done|]. cbn.
  destruct (p c); [|done]. simpl.
  destruct (Hk (S i) t caps) as [r Hr].
  rewrite m_rep_exact, bool_decide_eq_true_2 by lia. simpl.
  by rewrite Nat.add_0_r, drop_0, Hr.
Qed.

Lemma m_Cat r1 r2 k : m (r1 ⋅ r2) k = m r1 (m r2 k).
Proof. done. Qed.

Lemma m_Str t k i s caps :
  m (Str t) k i s caps =
  if startsWith s t then k (i + length t)%nat (drop (length t) s) caps else None.
Proof. done. Qed.

Lemma m_Str_rejects p t r k :
  match t with [] => False | a :: _ => ∀ c, p c = true → (c =? a)%N = false end →
  rejects p (m (Str t ⋅ r) k).
Proof.
  destruct t as [|a t]; [done|]. intros Ha i c u caps Hc. cbn.
  by rewrite (Ha c Hc).
Qed.
End group_facts.

Lemma not_slash_rejects t r k :
  startsWith t (lit "/") = true → rejects not_slash (m (Str t ⋅ r) k).
Proof.
  intros Ht. apply m_Str_rejects. destruct t as [|a t]; [done|].
  change (lit "/") with [slash] in Ht.
  simpl in Ht. apply andb_true_iff in Ht as [->%N.eqb_eq _].
  intros c. unfold not_slash. by intros ->%negb_true_iff.
Qed.

Lemma succeeds_Grp_Star n p k : succeeds k → succeeds (m (Grp n (Star p)) k).
Proof. intros Hk i s caps. rewrite m_Grp_Star_total by done. apply Hk. Qed.

Lemma succeeds_Opt p k : succeeds k → succeeds (m (Opt p) k).
Proof.
  intros Hk i s caps. rewrite m_Opt_total by done.
  destruct s as [|c t]; [|destruct (p c)]; apply Hk.
Qed.

Lemma startsWith_length s t :
  startsWith s t = true → length s = (length t + length (drop (length t) s))%nat.
Proof. intros H. rewrite (startsWith_inv _ _ H) at 1. by rewrite length_app. Qed.

Lemma run_rest_length p s : length s = (length (run p s) + length (rest p s))%nat.
Proof. rewrite (run_rest p s) at 1. by rewrite length_app. Qed.

Lemma whole_eq (s : jsstring) (n1 n2 : nat) (caps1 caps2 : MatchResult) :
  n1 = n2 → caps1 = caps2 →
  Some (<[0%nat := take n1 s]> caps1) = Some (<[0%nat := take n2 s]> caps2).
Proof. by intros -> ->. Qed.

(** An attempt of the blob pattern, wherever it starts, is the closed form. *)
Lemma match_at_blob i s : match_at blob_pattern i s = blob_at s.
Proof.
  unfold match_at, blob_at, blob_pattern.
  set (final := fun (i' : nat) (_ : jsstring) caps => Some (<[0%nat := take (i' - i) s]> caps)).
  assert (succeeds final) as Hfinal by (by intros ???; eexists).
  rewrite m_Cat, m_Str.
  destruct (startsWith s (lit "github.com/")) eqn:E1; [|done].
  rewrite m_Cat, m_Grp_Plus_reject by by apply not_slash_rejects.
  change (length (lit "github.com/")) with 11%nat in *.
  set (s1 := drop 11 s) in *.
  case_bool_decide; [|done].
  rewrite m_Cat, m_Str.
  destruct (startsWith (rest not_slash s1) (lit "/")) eqn:E2; [|done].
  rewrite m_Cat, m_Grp_Plus_reject by by apply not_slash_rejects.
  change (length (lit "/")) with 1%nat in *.
  set (s2 := drop 1 (rest not_slash s1)) in *.
  case_bool_decide; [|done].
  rewrite m_Cat, m_Str.
  destruct (startsWith (rest not_slash s2) (lit "/blob/")) eqn:E3; [|done].
  change (length (lit "/blob/")) with 6%nat in *.
  set (s3 := drop 6 (rest not_slash s2)) in *.
  rewrite m_Cat, m_Grp_Plus_total by by apply succeeds_Opt, succeeds_Grp_Star.
  case_bool_decide; [|done].
  rewrite m_Cat, m_Opt_total by by apply succeeds_Grp_Star.
  apply startsWith_length in E1, E2, E3.
  change (length (lit "github.com/")) with 11%nat in *.
  change (length (lit "/")) with 1%nat in *.
  change (length (lit "/blob/")) with 6%nat in *.
  fold s1 in E1. fold s2 in E2. fold s3 in E3.
  pose proof (run_rest_length not_slash s1) as L1.
  pose proof (run_rest_length not_slash s2) as L2.
  pose proof (run_rest_length not_slash s3) as L3.
  destruct (rest not_slash s3) as [|c t] eqn:E4.
  - rewrite m_Grp_Star_total by done. simpl. unfold final, blob_groups.
    apply whole_eq; [simpl in *; lia | done].
  - apply rest_head in E4 as E5. unfold not_slash in E5.
    apply negb_false_iff in E5. unfold is_slash. rewrite E5.
    rewrite m_Grp_Star_total by done. unfold final, blob_groups.
    pose proof (run_rest_length dot t) as L4.
    change (drop 1 (c :: t)) with (drop 0 t). rewrite drop_0.
    apply whole_eq; [simpl in *; lia | done].
Qed.

Lemma not_slash_Forall (w : jsstring) :
  Forall (fun c => not_slash c = true) w ↔ slash ∉ w.
Proof.
  rewrite Forall_forall. unfold not_slash. split.
  - intros H Hin. specialize (H _ Hin). by rewrite N.eqb_refl in H.
  - intros H c Hc. apply negb_true_iff, N.eqb_neq. by intros ->.
Qed.

Lemma run_segment (s : jsstring) :
  (1 ≤ length (run not_slash s))%nat → segment (run not_slash s).
Proof.
  intros H. split.
  - intros E. rewrite E in H. simpl in H. lia.
  - apply not_slash_Forall, run_Forall.
Qed.

Lemma run_segment_app (w t : jsstring) :
  segment w → match t with [] => True | c :: _ => c = slash end →
  run not_slash (w ++ t) = w ∧ rest not_slash (w ++ t) = t ∧ (1 ≤ length w)%nat.
Proof.
  intros [Hne Hw] Ht. destruct (run_app not_slash w t) as [-> ->].
  - by apply not_slash_Forall.
  - destruct t as [|c t]; [done|]. subst c. unfold not_slash. by rewrite N.eqb_refl.
  - repeat split. destruct w; [done | simpl; lia].
Qed.

Lemma blob_groups_lookup whole owner repo ref path :
  let g := blob_groups whole owner repo ref path in
  g !! 1%nat = Some owner ∧ g !! 2%nat = Some repo ∧
  g !! 3%nat = Some ref ∧ g !! 4%nat = Some path.
Proof. unfold blob_groups. repeat split; by simplify_map_eq. Qed.

(** The closed form reads exactly the declarative shape. *)
Lemma blob_at_sound s match_ :
  blob_at s = Some match_ →
  ∃ whole owner repo ref path,
    match_ = blob_groups whole owner repo ref path ∧ BlobAt s owner repo ref path.
Proof.
  unfold blob_at.
  destruct (startsWith s (lit "github.com/")) eqn:E1; [|done].
  set (s1 := drop 11 s).
  case_bool_decide as H1; [|done].
  destruct (startsWith (rest not_slash s1) (lit "/")) eqn:E2; [|done].
  set (s2 := drop 1 (rest not_slash s1)).
  case_bool_decide as H2; [|done].
  destruct (startsWith (rest not_slash s2) (lit "/blob/")) eqn:E3; [|done].
  set (s3 := drop 6 (rest not_slash s2)).
  case_bool_decide as H3; [|done].
  intros [= <-]. do 5 eexists. split; [done|].
  exists (rest not_slash s3). repeat split; try by apply run_segment.
  - apply startsWith_inv in E1, E2, E3.
    rewrite E1 at 1. f_equal. change (drop _ s) with s1.
    rewrite (run_rest not_slash s1) at 1. f_equal.
    rewrite E2 at 1. f_equal. change (drop _ (rest not_slash s1)) with s2.
    rewrite (run_rest not_slash s2) at 1. f_equal.
    rewrite E3 at 1. f_equal. change (drop _ (rest not_slash s2)) with s3.
    apply run_rest.
  - destruct (rest not_slash s3) as [|c t] eqn:E4; [constructor|].
    apply rest_head in E4 as E5. unfold not_slash in E5.
    apply negb_false_iff, N.eqb_eq in E5 as ->.
    change (drop 1 (slash :: t)) with (drop 0 t). rewrite drop_0.
    rewrite (run_rest dot t) at 1. constructor.
    + eapply Forall_impl; [apply run_Forall|]. unfold line_terminator.
      intros c ->. done.
    + destruct (rest dot t) eqn:E6; [done|]. by apply rest_head in E6.
Qed.

Lemma blob_at_complete s owner repo ref path :
  BlobAt s owner repo ref path →
  ∃ whole, blob_at s = Some (blob_groups whole owner repo ref path).
Proof.
  intros (tail & -> & Ho & Hr & Hf & Ht). unfold blob_at.
  rewrite startsWith_app.
  change 11%nat with (length (lit "github.com/")).
  rewrite (drop_app_length (lit "github.com/")).
  destruct (run_segment_app owner (lit "/" ++ repo ++ lit "/blob/" ++ ref ++ tail))
    as (-> & -> & ?); [done..|].
  rewrite bool_decide_eq_true_2 by done. rewrite startsWith_app.
  change (drop 1) with (drop (A:=code_unit) (length (lit "/"))).
  rewrite (drop_app_length (lit "/")).
  destruct (run_segment_app repo (lit "/blob/" ++ ref ++ tail)) as (-> & -> & ?); [done..|].
  rewrite bool_decide_eq_true_2 by done. rewrite startsWith_app.
  change 6%nat with (length (lit "/blob/")).
  rewrite (drop_app_length (lit "/blob/")).
  destruct (run_segment_app ref tail) as (-> & -> & ?); [done| |].
  { by destruct Ht. }
  rewrite bool_decide_eq_true_2 by done. eexists. do 2 f_equal.
  destruct Ht as [|path after Hp Ha]; [done|].
  change (length (lit "/")) with 1%nat.
  change (drop 1 (slash :: ?t)) with (drop 0 t). rewrite drop_0.
  apply run_app; [|done].
  eapply Forall_impl; [exact Hp|]. unfold line_terminator. intros c Hc.
  by destruct (dot c).
Qed.

(** ** The search for the first match *)

Section exec_facts.
Variable r : regex.
Implicit Types (s pre t : jsstring) (res : MatchResult).

Lemma exec_from_unfold i s :
  exec_from r i s =
  match match_at r i s with
  | Some res => Some res
  | None => match s with [] => None | _ :: s' => exec_from r (S i) s' end
  end.
Proof. by destruct s. Qed.

Lemma exec_from_Some i s res :
  exec_from r i s = Some res →
  ∃ pre t, s = pre ++ t ∧ match_at r (i + length pre) t = Some res ∧
    ∀ pre' t', s = pre' ++ t' → (length pre' < length pre)%nat →
               match_at r (i + length pre') t' = None.
Proof.
  revert i. induction s as [|c s IH]; intros i; rewrite exec_from_unfold.
  - destruct (match_at r i []) eqn:E; [|done]. intros [= ->].
    exists [], []. simpl. rewrite Nat.add_0_r. repeat split; [done|].
    intros ??? Hlt. simpl in Hlt. lia.
  - destruct (match_at r i (c :: s)) eqn:E.
    + intros [= ->]. exists [], (c :: s). simpl. rewrite Nat.add_0_r.
      repeat split; [done|]. intros ??? Hlt. simpl in Hlt. lia.
    + intros (pre & t & -> & Hm & Hfirst)%IH.
      exists (c :: pre), t. simpl. rewrite Nat.add_succ_r. repeat split; [done|].
      intros [|c' pre'] t' Heq Hlt; simpl in *.
      * subst t'. by rewrite Nat.add_0_r.
      * injection Heq as -> Heq. rewrite Nat.add_succ_r.
        apply (Hfirst pre' t' Heq). lia.
Qed.

Lemma exec_from_first i pre t res :
  match_at r (i + length pre) t = Some res →
  (∀ pre' t', pre ++ t = pre' ++ t' → (length pre' < length pre)%nat →
              match_at r (i + length pre') t' = None) →
  exec_from r i (pre ++ t) = Some res.
Proof.
  revert i. induction pre as [|c pre IH]; intros i Hm Hfirst; rewrite exec_from_unfold.
  - simpl in *. rewrite Nat.add_0_r in Hm. by rewrite Hm.
  - assert (match_at r i (c :: pre ++ t) = None) as H0.
    { rewrite <- (Nat.add_0_r i). apply (Hfirst [] (c :: pre ++ t)); [done | simpl; lia]. }
    simpl. rewrite H0. apply IH.
    + simpl in Hm. by rewrite Nat.add_succ_r in Hm.
    + intros pre' t' Heq Hlt. specialize (Hfirst (c :: pre') t').
      simpl in Hfirst. rewrite Nat.add_succ_r in Hfirst.
      apply Hfirst; [by f_equal | lia].
Qed.
End exec_facts.

(** [url.match] with the blob pattern succeeds with the groups owner, repo,
    ref and path exactly when the first place of the URL that has the shape
    github.com/owner/repo/blob/ref/path reads them. *)
Theorem matches_blob_iff url owner repo ref path :
  matches_blob url owner repo ref path ↔ BlobUrl url owner repo ref path.
Proof.
  split.
  - intros (match_ & Hm & H1 & H2 & H3 & H4).
    apply exec_from_Some in Hm as (pre & t & -> & Hm & Hfirst).
    rewrite match_at_blob in Hm.
    apply blob_at_sound in Hm as (whole & o & r & f & p & -> & Hat).
    destruct (blob_groups_lookup whole o r f p) as (G1 & G2 & G3 & G4).
    rewrite G1 in H1. rewrite G2 in H2. rewrite G3 in H3. rewrite G4 in H4.
    simplify_eq. exists pre, t. repeat split; [done|].
    intros pre' t' Heq Hlt (o & r & f & p & Hat').
    apply blob_at_complete in Hat' as [whole' Hat'].
    specialize (Hfirst pre' t' Heq Hlt). rewrite match_at_blob in Hfirst. congruence.
  - intros (pre & s & -> & Hat & Hfirst).
    apply blob_at_complete in Hat as [whole Hat].
    exists (blob_groups whole owner repo ref path).
    split; [|apply blob_groups_lookup].
    apply exec_from_first.
    + by rewrite match_at_blob.
    + intros pre' t' Heq Hlt. rewrite match_at_blob.
      destruct (blob_at t') as [match_|] eqn:E; [|done].
      apply blob_at_sound in E as (? & o & r & f & p & _ & Hat').
      destruct (Hfirst pre' t' Heq Hlt). by exists o, r, f, p.
Qed.

(** The text github.com/ does not overlap itself: it has one g. *)
Lemma github_no_overlap (k x y : jsstring) :
  k ≠ [] → k ++ lit "github.com/" ++ x = lit "github.com/" ++ y →
  ∃ k', k = lit "github.com/" ++ k'.
Proof.
  intros Hk H.
  change (lit "github.com/") with [103; 105; 116; 104; 117; 98; 46; 99; 111; 109; 47]%N in *.
  destruct k as [|c0 k]; [done|]. clear Hk.
  do 10 (destruct k as [|? k]; [by simplify_eq/=|]).
  simplify_eq/=. by eexists.
Qed.

(** A URL whose text before github.com/ holds no github.com/ of its own
    matches where one expects it to. *)
Lemma BlobUrl_intro pre s owner repo ref path :
  String_includes pre (lit "github.com/") = false →
  BlobAt s owner repo ref path →
  BlobUrl (pre ++ s) owner repo ref path.
Proof.
  intros Hpre Hat. exists pre, s. repeat split; [done|].
  intros pre' s' Heq Hlt (o & r & f & p & tail' & -> & _).
  destruct Hat as (tail & -> & _).
  assert (String_includes pre (lit "github.com/") = true) as E; [|congruence].
  apply String_includes_spec.
  apply app_eq_inv in Heq as [(k & -> & Hk)|(k & -> & _)].
  - symmetry in Hk.
    apply github_no_overlap in Hk as [k' ->].
    + by exists pre', k'.
    + intros ->. rewrite app_nil_r in Hlt. lia.
  - rewrite length_app in Hlt. lia.
Qed.

(** ** The commit-hash pattern *)

Lemma hex_digit_i_spec c : hex_digit_i c = true ↔ hex_digit c.
Proof.
  unfold hex_digit_i, hex_digit.
  rewrite !orb_true_iff, !andb_true_iff, !N.leb_le. tauto.
Qed.

Lemma forallb_hex_digit (s : jsstring) :
  forallb hex_digit_i s = true ↔ Forall (fun c => hex_digit_i c = true) s.
Proof.
  induction s as [|c s IH]; simpl.
  - split; [constructor | done].
  - rewrite andb_true_iff, Forall_cons. by rewrite IH.
Qed.

Lemma exec_from_Bol r i s : exec_from (Bol ⋅ r) (S i) s = None.
Proof. revert i. induction s as [|c s IH]; intros i; simpl; [done | apply IH]. Qed.

(** The test of line 79 holds exactly of the 40-character hexadecimal
    strings. *)
Lemma RegExp_test_commit_hash ref :
  RegExp_test commit_hash_pattern ref = true ↔ commit_hash ref.
Proof.
  unfold RegExp_test, RegExp_exec, commit_hash_pattern.
  rewrite bool_decide_eq_true, exec_from_unfold.
  assert (match_at (Bol ⋅ Rep 40 (Some 40%nat) hex_digit_i ⋅ Eol) 0 ref =
          if bool_decide (40 ≤ length ref)%nat && forallb hex_digit_i (take 40 ref)
          then match drop 40 ref with
               | [] => Some (<[0%nat := take 40 ref]> ∅)
               | _ :: _ => None
               end
          else None) as ->.
  { unfold match_at. rewrite m_Cat. cbn [m]. by rewrite m_rep_exact. }
  unfold commit_hash. split.
  - intros [res Hres].
    destruct (bool_decide _ && forallb _ _) eqn:E.
    + apply andb_true_iff in E as [E1%bool_decide_eq_true E2].
      destruct (drop 40 ref) eqn:E3.
      * apply (f_equal length) in E3. rewrite length_drop in E3. simpl in E3.
        assert (length ref = 40%nat) as Hlen by lia. split; [done|].
        rewrite take_ge in E2 by lia.
        apply forallb_hex_digit in E2. eapply Forall_impl; [exact E2|].
        intros c Hc. by apply hex_digit_i_spec.
      * destruct ref; [done|]. by rewrite exec_from_Bol in Hres.
    + destruct ref; [done|]. by rewrite exec_from_Bol in Hres.
  - intros [Hlen Hhex]. rewrite bool_decide_eq_true_2 by lia.
    rewrite take_ge, drop_ge by lia.
    assert (forallb hex_digit_i ref = true) as ->; [|by eexists].
    apply forallb_hex_digit. eapply Forall_impl; [exact Hhex|].
    intros c Hc. by apply hex_digit_i_spec.
Qed.

(** ** The URL classifier *)

Lemma BlobAt_reference pre s owner repo ref path :
  BlobAt s owner repo ref path → blob_reference (pre ++ s).
Proof.
  intros (tail & -> & _). split.
  - exists pre, (lit "/" ++ owner ++ lit "/" ++ repo ++ lit "/blob/" ++ ref ++ tail).
    by change (lit "github.com/") with (lit "github.com" ++ lit "/").
  - exists (pre ++ lit "github.com/" ++ owner ++ lit "/" ++ repo), (ref ++ tail).
    by rewrite <- !app_assoc.
Qed.

Lemma gate_spec url :
  String_includes url (lit "github.com") && String_includes url (lit "/blob/") = true
  ↔ blob_reference url.
Proof.
  unfold blob_reference, contains.
  by rewrite andb_true_iff, !String_includes_spec.
Qed.

(** C1. A URL that matches the blob pattern with the groups owner, repo, ref
    and path is a special case, and is rewritten to
    https://raw.githubusercontent.com/owner/repo/ref/path when the ref is a
    40-character hexadecimal string, and to
    https://raw.githubusercontent.com/owner/repo/refs/heads/ref/path when it
    is not. *)
Theorem handleGitHubUrl_blob (url owner repo ref path : jsstring) :
  matches_blob url owner repo ref path →
  isGitHub (handleGitHubUrl url) = true ∧
  shouldBypassJina (handleGitHubUrl url) = true ∧
  (commit_hash ref →
   convertedUrl (handleGitHubUrl url) =
   lit "https://raw.githubusercontent.com/" ++ owner ++ lit "/" ++ repo ++
   lit "/" ++ ref ++ lit "/" ++ path) ∧
  (¬ commit_hash ref →
   convertedUrl (handleGitHubUrl url) =
   lit "https://raw.githubusercontent.com/" ++ owner ++ lit "/" ++ repo ++
   lit "/refs/heads/" ++ ref ++ lit "/" ++ path).
Proof.
  intros Hm.
  assert (blob_reference url) as Hgate%gate_spec.
  { apply matches_blob_iff in Hm as (pre & s & -> & Hat & _).
    by eapply BlobAt_reference. }
  destruct Hm as (match_ & Hm & H1 & H2 & H3 & H4).
  unfold handleGitHubUrl. rewrite Hgate, Hm, H1, H2, H3, H4.
  unfold ToString, default. cbn [from_option id].
  destruct (RegExp_test commit_hash_pattern ref) eqn:E;
    cbn [isGitHub shouldBypassJina convertedUrl];
    (split; [done|split; [done|split]]).
  - done.
  - apply RegExp_test_commit_hash in E. by intros [].
  - intros Hc%RegExp_test_commit_hash. congruence.
  - done.
Qed.

Lemma handleGitHubUrl_blob_witness :
  let branch := lit "https://github.com/acme/repo/blob/main/README.md" in
  let hash := lit "0123456789abcdef0123456789ABCDEF01234567" in
  let commit := lit "https://github.com/acme/repo/blob/" ++ hash ++ lit "/src/index.js" in
  (matches_blob branch (lit "acme") (lit "repo") (lit "main") (lit "README.md") ∧
   convertedUrl (handleGitHubUrl branch) =
   lit "https://raw.githubusercontent.com/acme/repo/refs/heads/main/README.md") ∧
  (matches_blob commit (lit "acme") (lit "repo") hash (lit "src/index.js") ∧
   commit_hash hash ∧
   convertedUrl (handleGitHubUrl commit) =
   lit "https://raw.githubusercontent.com/acme/repo/" ++ hash ++ lit "/src/index.js").
Proof.
  intros branch hash commit.
  assert (matches_blob branch (lit "acme") (lit "repo") (lit "main") (lit "README.md")) as Hb.
  { exists (blob_groups (lit "github.com/acme/repo/blob/main/README.md")
              (lit "acme") (lit "repo") (lit "main") (lit "README.md")).
    repeat split; vm_compute; reflexivity. }
  assert (matches_blob commit (lit "acme") (lit "repo") hash (lit "src/index.js")) as Hc.
  { exists (blob_groups (lit "github.com/acme/repo/blob/" ++ hash ++ lit "/src/index.js")
              (lit "acme") (lit "repo") hash (lit "src/index.js")).
    repeat split; vm_compute; reflexivity. }
  assert (commit_hash hash) as Hh.
  { apply RegExp_test_commit_hash. vm_compute. reflexivity. }
  split; (split; [assumption|]).
  - destruct (handleGitHubUrl_blob _ _ _ _ _ Hb) as (_ & _ & _ & ->).
    + reflexivity.
    + intros [Hlen _]. vm_compute in Hlen. discriminate.
  - split; [exact Hh|].
    destruct (handleGitHubUrl_blob _ _ _ _ _ Hc) as (_ & _ & -> & _).
    + vm_compute. reflexivity.
    + exact Hh.
Defined.

Lemma handleGitHubUrl_passthrough (url : jsstring) :
  ¬ blob_reference url →
  handleGitHubUrl url =
  {| isGitHub := false; convertedUrl := url; originalUrl := url; shouldBypassJina := false |}.
Proof.
  intros Hn. unfold handleGitHubUrl.
  destruct (String_includes url (lit "github.com") && String_includes url (lit "/blob/")) eqn:E;
    [|done].
  by apply gate_spec in E.
Qed.

(** C10. The record the classifier returns keeps the input as originalUrl,
    has shouldBypassJina equal to isGitHub, and has convertedUrl equal to the
    input whenever isGitHub is false. *)
Theorem handleGitHubUrl_record (url : jsstring) :
  originalUrl (handleGitHubUrl url) = url ∧
  shouldBypassJina (handleGitHubUrl url) = isGitHub (handleGitHubUrl url) ∧
  (isGitHub (handleGitHubUrl url) = false → convertedUrl (handleGitHubUrl url) = url).
Proof.
  unfold handleGitHubUrl.
  by destruct (String_includes url (lit "github.com") && String_includes url (lit "/blob/")).
Qed.

Lemma handleGitHubUrl_record_witness :
  let url := lit "https://example.com/docs" in
  isGitHub (handleGitHubUrl url) = false ∧ convertedUrl (handleGitHubUrl url) = url.
Proof.
  intros url. assert (isGitHub (handleGitHubUrl url) = false) as H by (vm_compute; reflexivity).
  split; [exact H|]. exact (proj2 (proj2 (handleGitHubUrl_record url)) H).
Defined.

(** ** The header table *)

(** C5. For each extraction mode, and whatever the format, the header set of
    a non-GitHub URL is the content-type and accept headers, the rows of
    the mode in the table of section 4.3 and the rows of the format: each
    setting of the mode's row is there with the value of the table, and a
    setting of the mode table that is there comes from the mode's own row or
    from the format, never from the row of another mode. *)
Theorem buildJinaHeaders_table (mode : ExtractionMode) (format : OutputFormat) :
  let h := buildJinaHeaders mode format false in
  h = rows (format_table format) ∪ rows (mode_table mode) ∪ json_headers ∧
  Forall (fun r => h !! header_name r.1 = Some (lit r.2)) (mode_table mode) ∧
  ∀ d, mode_directive d = true → is_Some (h !! header_name d) →
       d ∈ (mode_table mode).*1 ∨ d ∈ (format_table format).*1.
Proof.
  intros h. subst h. split; [|split].
  - destruct mode, format; vm_compute; reflexivity.
  - destruct mode, format; repeat constructor; vm_compute; reflexivity.
  - intros d Hd [v Hv]. revert Hv.
    destruct mode, format, d; try discriminate Hd;
      first [ by (vm_compute; intros [=]) | intros _; cbn; set_solver ].
Qed.

(** ** [encodeURIComponent] *)

Lemma uriUnreserved_ascii c : uriUnreserved c = true → (c < 128)%N.
Proof.
  unfold uriUnreserved. rewrite !orb_true_iff, !andb_true_iff, !N.leb_le.
  intros [[[[_ ?]|[_ ?]]|[_ ?]]|H]; try lia.
  apply bool_decide_eq_true in H.
  change (lit "-_.!~*'()") with [45; 95; 46; 33; 126; 42; 39; 40; 41]%N in H.
  repeat (apply elem_of_cons in H as [->|H]; [lia|]). by apply elem_of_nil in H.
Qed.

Lemma surrogate_reserved c :
  lead_surrogate c = true ∨ trail_surrogate c = true → uriUnreserved c = false.
Proof.
  intros H. destruct (uriUnreserved c) eqn:E; [|done].
  apply uriUnreserved_ascii in E. unfold lead_surrogate, trail_surrogate in H.
  rewrite !andb_true_iff, !N.leb_le in H. lia.
Qed.

Lemma encodeURIComponent_complete s :
  well_formed s → ∃ q, encodeURIComponent s = inr q.
Proof.
  induction 1 as [|c s Hl Ht _ [q IH]|c d s Hl Ht _ [q IH]]; cbn [encodeURIComponent].
  - by eexists.
  - rewrite IH, Hl, Ht. destruct (uriUnreserved c); by eexists.
  - rewrite (surrogate_reserved c) by auto. rewrite Hl, Ht, IH. by eexists.
Qed.

Lemma encodeURIComponent_sound_upto n s :
  (length s ≤ n)%nat → (∃ q, encodeURIComponent s = inr q) → well_formed s.
Proof.
  revert s. induction n as [|n IH]; intros [|c s] Hn [q Hq];
    [apply wf_nil | simpl in Hn; lia | apply wf_nil |].
  simpl in Hn. cbn [encodeURIComponent] in Hq.
  destruct (uriUnreserved c) eqn:Eu.
  - destruct (encodeURIComponent s) as [|t] eqn:Es; [done|].
    destruct (lead_surrogate c) eqn:El.
    { by rewrite surrogate_reserved in Eu by auto. }
    destruct (trail_surrogate c) eqn:Et.
    { by rewrite surrogate_reserved in Eu by auto. }
    apply wf_unit; [done..|]. apply IH; [lia | by eexists].
  - destruct (lead_surrogate c) eqn:El.
    + destruct s as [|d s]; [done|]. destruct (trail_surrogate d) eqn:Et; [|done].
      destruct (encodeURIComponent s) as [|t] eqn:Es; [done|].
      apply wf_pair; [done..|]. apply IH; [simpl in Hn; lia | by eexists].
    + destruct (trail_surrogate c) eqn:Et; [done|].
      destruct (encodeURIComponent s) as [|t] eqn:Es; [done|].
      apply wf_unit; [done..|]. apply IH; [lia | by eexists].
Qed.

(** A string has a URL encoding exactly when no surrogate in it stands
    without its partner. *)
Lemma encodeURIComponent_well_formed s :
  well_formed s ↔ ∃ q, encodeURIComponent s = inr q.
Proof.
  split; [apply encodeURIComponent_complete|].
  by apply (encodeURIComponent_sound_upto (length s)).
Qed.

(** ** The tool handlers *)

Section tool_facts.
Variable JSON_stringify : json → nat → jsstring.
Variable formatResults : jsstring → Z → Legacy.ReturnFormat → Error + jsstring.

Implicit Types (w : World) (r : Response) (e : Error).

Lemma createHeaders_eval w h : createHeaders h w = ([], inr (with_credential w h)).
Proof.
  unfold createHeaders, with_credential, credential, bind, getJinaApiKey, ret.
  destruct (JINA_API_KEY w) as [key|]; [|done]. by destruct (String_truthy key).
Qed.

Lemma Legacy_createHeaders_eval w h :
  Legacy.createHeaders h w = ([], inr (with_credential w h)).
Proof. apply createHeaders_eval. Qed.

Lemma bind_eval {A B} (c : Async A) (k : A → Async B) w log a :
  c w = (log, inr a) → bind c k w = (log ++ (k a w).1, (k a w).2).
Proof. unfold bind. intros ->. by destruct (k a w). Qed.

Lemma jina_reader_bypass_eval w args :
  shouldBypassJina (handleGitHubUrl (reader_url args)) = true →
  jina_reader JSON_stringify args w =
  ([direct_request args],
   inr match network w (direct_request args) with
       | inl e => error_result (message e)
       | inr r =>
           if ok r then text_result (JStr (text_ r))
           else error_result (http_error "GitHub API" (status r) (statusText r))
       end).
Proof.
  intros H. unfold jina_reader, try_catch, bind, fetch, throw, ret. rewrite H.
  fold (direct_request args).
  destruct (network w (direct_request args)) as [e|r]; [done|].
  by destruct (ok r).
Qed.

Lemma jina_reader_jina_eval w args :
  shouldBypassJina (handleGitHubUrl (reader_url args)) = false →
  jina_reader JSON_stringify args w =
  ([reader_request JSON_stringify w args],
   inr match network w (reader_request JSON_stringify w args) with
       | inl e => error_result (message e)
       | inr r =>
           if ok r then
             match json_ r with
             | inl e => error_result (message e)
             | inr data =>
                 match get data (lit "data") with
                 | inl e => error_result (message e)
                 | inr d =>
                     match get (or_else d (JObj [])) (lit "content") with
                     | inl e => error_result (message e)
                     | inr c => text_result (or_else c placeholder)
                     end
                 end
             end
           else error_result (http_error "Jina Reader API" (status r) (text_ r))
       end).
Proof.
  intros H. unfold jina_reader, try_catch. rewrite H.
  assert (handleGitHubUrl (reader_url args) =
          {| isGitHub := false; convertedUrl := reader_url args;
             originalUrl := reader_url args; shouldBypassJina := false |}) as ->.
  { revert H. unfold handleGitHubUrl. by destruct (_ && _). }
  cbn [convertedUrl isGitHub].
  rewrite (bind_eval _ _ _ _ _ (createHeaders_eval _ _)).
  unfold bind, fetch, throw, ret, lift, reader_request, with_timeout. cbn.
  destruct (network w _) as [e|r]; [done|].
  destruct (ok r); [|done]. cbn.
  destruct (json_ r) as [e|data]; [done|]. cbn.
  destruct (get data _) as [e|d]; [done|]. cbn.
  by destruct (get (or_else d _) _) as [e|c].
Qed.

Lemma jina_search_eval w args :
  jina_search args w =
  match encodeURIComponent (query args) with
  | inl e => ([], inr (error_result (message e)))
  | inr q =>
      ([search_request w args q],
       inr match network w (search_request w args q) with
           | inl e => error_result (message e)
           | inr r =>
               if ok r then text_result (JStr (text_ r))
               else error_result (http_error "Jina Search API" (status r) (text_ r))
           end)
  end.
Proof.
  unfold jina_search, try_catch, lift.
  unfold bind at 1. destruct (encodeURIComponent (query args)) as [e|q]; [done|].
  rewrite (bind_eval _ _ _ _ _ (createHeaders_eval _ _)).
  unfold bind, fetch, throw, ret, search_request, with_site. cbn.
  destruct (network w _) as [e|r]; [done|]. by destruct (ok r).
Qed.

Lemma get_field data key : data ≠ JNull → get data key = inr (field data key).
Proof. by destruct data. Qed.

Lemma or_else_object (v : option json) : or_else v (JObj []) ≠ JNull.
Proof. destruct v as [[]|]; cbn; try done. by destruct b. by destruct (negb _). by destruct (String_truthy _). Qed.

Lemma field_or_else (v : option json) key :
  field (or_else v (JObj [])) key = v ≫= fun d => field d key.
Proof.
  destruct v as [[]|]; cbn; try done.
  - by destruct b.
  - by destruct (negb _).
  - by destruct s.
Qed.

(** C2, as the code has it.  A read of a URL the classifier marks as a
    special case issues one request, whatever comes back: a GET of the
    rewritten URL with no header at all, so without the mode, format and
    credential headers.  The body of a 2xx response comes back verbatim as
    the result; any other response comes back as an error that names its
    status.  The blob URL of README.md on the main branch of acme/repo is
    fetched from refs/heads/main of the raw host. *)
Theorem jina_reader_bypass (w : World) (args : ReaderArgs) :
  shouldBypassJina (handleGitHubUrl (reader_url args)) = true →
  requests (jina_reader JSON_stringify args) w =
    [{| url := convertedUrl (handleGitHubUrl (reader_url args));
        method := GET; headers := ∅; body := None |}] ∧
  (∀ r, network w (direct_request args) = inr r → ok r = true →
        outcome (jina_reader JSON_stringify args) w = inr (text_result (JStr (text_ r)))) ∧
  (∀ r, network w (direct_request args) = inr r → ok r = false →
        outcome (jina_reader JSON_stringify args) w =
        inr (error_result (http_error "GitHub API" (status r) (statusText r)))) ∧
  (reader_url args = lit "https://github.com/acme/repo/blob/main/README.md" →
   url <$> requests (jina_reader JSON_stringify args) w =
     [lit "https://raw.githubusercontent.com/acme/repo/refs/heads/main/README.md"]).
Proof.
  intros H. unfold requests, outcome. rewrite (jina_reader_bypass_eval _ _ H).
  split; [done|split; [|split]].
  - intros r -> ->. done.
  - intros r -> ->. done.
  - intros Heq. cbn. rewrite Heq. vm_compute. reflexivity.
Qed.

(** C6, as the code has it.  A URL in which github.com or /blob/ does not
    occur comes back from the classifier unchanged and not as a special
    case, and the read goes on with it: the one request is the POST to the
    reader, with the URL as given in its body. *)
Theorem handleGitHubUrl_other (w : World) (args : ReaderArgs) :
  ¬ blob_reference (reader_url args) →
  handleGitHubUrl (reader_url args) =
    {| isGitHub := false; convertedUrl := reader_url args;
       originalUrl := reader_url args; shouldBypassJina := false |} ∧
  ∃ request,
    requests (jina_reader JSON_stringify args) w = [request] ∧
    url request = lit "https://r.jina.ai/" ∧ method request = POST ∧
    body request = Some (JSON_stringify (JObj [(lit "url", JStr (reader_url args))]) 0).
Proof.
  intros Hn. pose proof (handleGitHubUrl_passthrough _ Hn) as H.
  split; [exact H|]. unfold requests. rewrite jina_reader_jina_eval by by rewrite H.
  by eexists.
Qed.

(** C7, as the code has it.  A read outside the bypass path whose response
    is a 2xx with a JSON body other than null returns the nested
    data.content when that field is there and truthy (a non-empty string,
    for one), and the literal placeholder in every other case; the payload
    itself is never the result. *)
Theorem jina_reader_content (w : World) (args : ReaderArgs) (r : Response) (data : json) :
  shouldBypassJina (handleGitHubUrl (reader_url args)) = false →
  network w (reader_request JSON_stringify w args) = inr r →
  ok r = true → json_ r = inr data → data ≠ JNull →
  requests (jina_reader JSON_stringify args) w = [reader_request JSON_stringify w args] ∧
  outcome (jina_reader JSON_stringify args) w =
    inr (text_result (default placeholder (extracted_content data))) ∧
  (∀ d c, field data (lit "data") = Some d → field d (lit "content") = Some (JStr c) →
          c ≠ [] → extracted_content data = Some (JStr c)) ∧
  (field data (lit "data") ≫= (fun d => field d (lit "content")) = None →
   extracted_content data = None).
Proof.
  intros H Hnet Hok Hjson Hdata. unfold requests, outcome.
  rewrite (jina_reader_jina_eval _ _ H), Hnet, Hok, Hjson. cbn [fst snd].
  rewrite (get_field _ _ Hdata), (get_field _ _ (or_else_object _)), field_or_else.
  unfold extracted_content. repeat split.
  - destruct (field data (lit "data")) as [d|]; [|done]. cbn.
    destruct (field d (lit "content")) as [c|]; [|done]. cbn.
    by destruct (truthy c).
  - intros d c -> -> Hc. by destruct c.
  - destruct (field data (lit "data")) as [d|]; [|done]. cbn. by intros ->.
Qed.

(** C9. A read outside the bypass path with a custom timeout, a positive
    integer (a safe one: at most 2^53 - 1, so that the number holds it
    exactly), sends the decimal numeral of that integer as the timeout
    header, whatever the extraction mode set there. *)
Theorem jina_reader_customTimeout (w : World) (args : ReaderArgs) (t : Z) :
  shouldBypassJina (handleGitHubUrl (reader_url args)) = false →
  customTimeout args = Some t → 0 < t → t ≤ MAX_SAFE_INTEGER →
  ∃ request,
    requests (jina_reader JSON_stringify args) w = [request] ∧
    url request = lit "https://r.jina.ai/" ∧ method request = POST ∧
    headers request !! lit "X-Timeout" = Some (Number_toString t).
Proof.
  intros H Ht Hpos _. unfold requests. rewrite (jina_reader_jina_eval _ _ H).
  eexists. repeat split. cbn. rewrite Ht. unfold with_timeout, Number_truthy.
  destruct (Z.eqb_spec t 0) as [->|_]; [lia|]. cbn.
  unfold with_credential. destruct (credential w).
  - rewrite lookup_insert_ne; [apply lookup_insert_eq | by vm_compute].
  - apply lookup_insert_eq.
Qed.

(** C8, as the code has it.  A search whose query has a URL encoding q
    issues one request: a GET of the search endpoint with q as the q
    parameter and, when a site filter is given and is not empty, the
    header X-Site with https:// before the filter (no such header
    otherwise).  The body of a 2xx response comes back unmodified, and the
    count changes nothing. *)
Theorem jina_search_request (w : World) (args : SearchArgs) (q : jsstring) :
  encodeURIComponent (query args) = inr q →
  ∃ request,
    requests (jina_search args) w = [request] ∧
    url request = lit "https://s.jina.ai/?q=" ++ q ∧ method request = GET ∧
    body request = None ∧
    (∀ site, siteFilter args = Some site → site ≠ [] →
             headers request !! lit "X-Site" = Some (lit "https://" ++ site)) ∧
    (siteFilter args = None ∨ siteFilter args = Some [] →
     headers request !! lit "X-Site" = None) ∧
    (∀ r, network w request = inr r → ok r = true →
          outcome (jina_search args) w = inr (text_result (JStr (text_ r)))) ∧
    (∀ n, jina_search {| query := query args; count := n; siteFilter := siteFilter args |} w
          = jina_search args w).
Proof.
  intros Hq. unfold requests, outcome. rewrite !(jina_search_eval w args), Hq.
  eexists. repeat split.
  - intros site Hsite Hne. cbn. rewrite Hsite. unfold with_site.
    destruct site as [|c site]; [done|]. cbn.
    unfold with_credential. destruct (credential w).
    + rewrite lookup_insert_ne; [apply lookup_insert_eq | by vm_compute].
    + apply lookup_insert_eq.
  - intros Hsite. cbn.
    assert (with_site (siteFilter args) (assign ∅ "X-Respond-With" "no-content")
            = assign ∅ "X-Respond-With" "no-content") as ->.
    { by destruct Hsite as [-> | ->]. }
    unfold with_credential. destruct (credential w); vm_compute; reflexivity.
  - intros r Hr Hok. cbn in *. by rewrite Hr, Hok.
  - intros n. rewrite jina_search_eval. cbn [query]. by rewrite Hq.
Qed.
(** *** The legacy handlers *)

Lemma legacy_reader_eval w args :
  let request := legacy_reader_request JSON_stringify w args in
  Legacy.jina_reader JSON_stringify args w =
  ([request],
   inr match network w request with
       | inl e => Legacy.error_result (message e)
       | inr r =>
           if ok r then
             match json_ r with
             | inl e => Legacy.error_result (message e)
             | inr data =>
                 match get data (lit "data") with
                 | inl e => Legacy.error_result (message e)
                 | inr (Some d) =>
                     if truthy d then
                       match get d (lit "content") with
                       | inl e => Legacy.error_result (message e)
                       | inr (Some c) =>
                           if truthy c then text_result c
                           else text_result (JStr (JSON_stringify data 2))
                       | inr None => text_result (JStr (JSON_stringify data 2))
                       end
                     else text_result (JStr (JSON_stringify data 2))
                 | inr None => text_result (JStr (JSON_stringify data 2))
                 end
             end
           else Legacy.error_result (http_error "Jina Reader API" (status r) (text_ r))
       end).
Proof.
  intros request. subst request. unfold Legacy.jina_reader, try_catch.
  rewrite (bind_eval _ _ _ _ _ (Legacy_createHeaders_eval _ _)).
  unfold bind, fetch, throw, ret, lift, legacy_reader_request. cbn.
  destruct (network w _) as [e|r]; [done|].
  destruct (ok r); [|done]. cbn.
  destruct (json_ r) as [e|data]; [done|]. cbn.
  destruct (get data _) as [e|[d|]]; [done| |done]. cbn.
  destruct (truthy d); [|done]. cbn.
  destruct (get d _) as [e|[c|]]; [done| |done]. cbn.
  by destruct (truthy c).
Qed.

Lemma legacy_search_eval w args :
  Legacy.jina_search formatResults args w =
  match encodeURIComponent (Legacy.query args) with
  | inl e => ([], inr (Legacy.error_result (message e)))
  | inr q =>
      ([legacy_search_request w q],
       inr match network w (legacy_search_request w q) with
           | inl e => Legacy.error_result (message e)
           | inr r =>
               if ok r then
                 match formatResults (text_ r) (Legacy.count args) (Legacy.returnFormat args) with
                 | inl e => Legacy.error_result (message e)
                 | inr out => text_result (JStr out)
                 end
               else Legacy.error_result (http_error "Jina Search API" (status r) (text_ r))
           end)
  end.
Proof.
  unfold Legacy.jina_search, try_catch, lift.
  unfold bind at 1. destruct (encodeURIComponent _) as [e|q]; [done|].
  rewrite (bind_eval _ _ _ _ _ (Legacy_createHeaders_eval _ _)).
  unfold bind, fetch, throw, ret, legacy_search_request. cbn.
  destruct (network w _) as [e|r]; [done|].
  destruct (ok r); [|done]. cbn. by destruct (formatResults _ _ _).
Qed.

Lemma legacy_fact_check_eval w args :
  let request := legacy_fact_check_request JSON_stringify w args in
  Legacy.jina_fact_check JSON_stringify args w =
  ([request],
   inr match network w request with
       | inl e => Legacy.error_result (message e)
       | inr r =>
           if ok r then
             match json_ r with
             | inl e => Legacy.error_result (message e)
             | inr data => text_result (JStr (JSON_stringify data 2))
             end
           else Legacy.error_result (http_error "Jina Fact-Check API" (status r) (text_ r))
       end).
Proof.
  intros request. subst request. unfold Legacy.jina_fact_check, try_catch.
  rewrite (bind_eval _ _ _ _ _ (Legacy_createHeaders_eval _ _)).
  unfold bind, fetch, throw, ret, lift, legacy_fact_check_request. cbn.
  destruct (network w _) as [e|r]; [done|].
  destruct (ok r); [|done]. cbn. by destruct (json_ r).
Qed.

(** *** Every call *)

Lemma invoke_requests w call :
  requests (invoke JSON_stringify formatResults call) w = sent JSON_stringify w call.
Proof.
  unfold requests. destruct call as [args|args|args|args|args]; cbn [invoke sent].
  - destruct (shouldBypassJina (handleGitHubUrl (reader_url args))) eqn:H.
    + by rewrite (jina_reader_bypass_eval _ _ H).
    + by rewrite (jina_reader_jina_eval _ _ H).
  - rewrite jina_search_eval. by destruct (encodeURIComponent _).
  - by rewrite legacy_reader_eval.
  - rewrite legacy_search_eval. by destruct (encodeURIComponent _).
  - by rewrite legacy_fact_check_eval.
Qed.

Lemma sent_length w call :
  encodable call = true → length (sent JSON_stringify w call) = 1%nat.
Proof.
  destruct call as [args|args|args|args|args]; cbn; try done.
  - by destruct (shouldBypassJina _).
  - by destruct (encodeURIComponent _).
  - by destruct (encodeURIComponent _).
Qed.

Lemma with_credential_lookup w (h : Headers) :
  h !! lit "Authorization" = None →
  with_credential w h !! lit "Authorization" = (fun key => lit "Bearer " ++ key) <$> credential w.
Proof.
  intros H. unfold with_credential. destruct (credential w); [|done].
  apply lookup_insert_eq.
Qed.

Lemma buildJinaHeaders_no_credential mode format :
  buildJinaHeaders mode format false !! lit "Authorization" = None.
Proof. destruct mode, format; vm_compute; reflexivity. Qed.

Lemma with_timeout_no_credential (t : option Z) (h : Headers) :
  h !! lit "Authorization" = None → with_timeout t h !! lit "Authorization" = None.
Proof.
  intros H. unfold with_timeout. destruct t as [t|]; [|done].
  destruct (Number_truthy t); [|done].
  rewrite lookup_insert_ne; [done|]. intros E. vm_compute in E. discriminate E.
Qed.

Lemma with_site_no_credential (site : option jsstring) (h : Headers) :
  h !! lit "Authorization" = None → with_site site h !! lit "Authorization" = None.
Proof.
  intros H. unfold with_site. destruct site as [site|]; [|done].
  destruct (String_truthy site); [|done].
  rewrite lookup_insert_ne; [done|]. intros E. vm_compute in E. discriminate E.
Qed.

Lemma sent_authorization w call :
  Forall (fun request =>
            headers request !! lit "Authorization" =
            if bypasses call then None
            else (fun key => lit "Bearer " ++ key) <$> credential w)
         (sent JSON_stringify w call).
Proof.
  destruct call as [args|args|args|args|args]; cbn [sent bypasses].
  - destruct (shouldBypassJina _); repeat constructor. cbn [headers reader_request].
    apply with_credential_lookup, with_timeout_no_credential,
      buildJinaHeaders_no_credential.
  - destruct (encodeURIComponent _); repeat constructor. cbn [headers search_request].
    apply with_credential_lookup, with_site_no_credential. vm_compute. reflexivity.
  - repeat constructor. cbn [headers legacy_reader_request].
    apply with_credential_lookup.
    destruct args as [u [] [] []]; vm_compute; reflexivity.
  - destruct (encodeURIComponent _); repeat constructor.
    cbn [headers legacy_search_request].
    apply with_credential_lookup. vm_compute. reflexivity.
  - repeat constructor. cbn [headers legacy_fact_check_request].
    apply with_credential_lookup. vm_compute. reflexivity.
Qed.

(** C3, as the code has it.  Without a credential no request of any tool
    carries an Authorization header.  With one, every request to the
    reader, search and fact-check endpoints carries it as a bearer token;
    the direct GET of the GitHub bypass carries none.  A call sends one
    request (none when the query of a search has no URL encoding). *)
Theorem credential_on_requests (w : World) (call : ToolCall) :
  let sent := requests (invoke JSON_stringify formatResults call) w in
  (encodable call = true → length sent = 1%nat) ∧
  (credential w = None →
   Forall (fun request => headers request !! lit "Authorization" = None) sent) ∧
  (∀ key, credential w = Some key → bypasses call = false →
   Forall (fun request =>
             headers request !! lit "Authorization" = Some (lit "Bearer " ++ key)) sent) ∧
  (bypasses call = true →
   Forall (fun request => headers request !! lit "Authorization" = None) sent).
Proof.
  cbn zeta. rewrite invoke_requests.
  pose proof (sent_authorization w call) as H.
  split; [apply sent_length|]. repeat split.
  - intros Hc. eapply Forall_impl; [exact H|]. intros request Hr.
    cbn beta in *. rewrite Hc in Hr. destruct (bypasses call); exact Hr.
  - intros key Hc Hb. eapply Forall_impl; [exact H|]. intros request Hr.
    cbn beta in *. rewrite Hc, Hb in Hr. exact Hr.
  - intros Hb. eapply Forall_impl; [exact H|]. intros request Hr.
    cbn beta in *. rewrite Hb in Hr. exact Hr.
Qed.

Lemma failure_explains prefix msg what :
  contains msg what → explains (failure prefix msg) what.
Proof.
  intros (a & b & ->). split; [done|]. eexists. split; [done|].
  exists (prefix ++ a), b. by rewrite <- app_assoc.
Qed.

Lemma contains_refl (s : jsstring) : contains s s.
Proof. exists [], []. by rewrite app_nil_r. Qed.

Lemma http_error_status api status detail :
  contains (http_error api status detail) (lit "(" ++ Number_toString status ++ lit ")").
Proof.
  exists (lit api ++ lit " error "), (lit ": " ++ detail).
  unfold http_error.
  change (lit " error (") with (lit " error " ++ lit "(").
  change (lit "): ") with (lit ")" ++ lit ": ").
  by rewrite <- !app_assoc.
Qed.

(** One exchange and its verdict: what every handler comes down to once
    its request is built. *)
Lemma exchange_contained w call prefix api (detail : Response → jsstring)
    (good : Response → ToolResult) request :
  (∀ r e, ok r = true → body_error formatResults call r = Some e →
          good r = failure prefix (message e)) →
  let result :=
    match network w request with
    | inl e => failure prefix (message e)
    | inr r =>
        if ok r then good r
        else failure prefix (http_error api (status r) (detail r))
    end in
  (∀ request' r, request' ∈ [request] → network w request' = inr r → ok r = false →
                 explains result (lit "(" ++ Number_toString (status r) ++ lit ")")) ∧
  (∀ request' e, request' ∈ [request] → network w request' = inl e →
                 explains result (message e)) ∧
  (∀ request' r e, request' ∈ [request] → network w request' = inr r → ok r = true →
                   body_error formatResults call r = Some e →
                   explains result (message e)).
Proof.
  intros Hgood result. subst result. split; [|split].
  - intros rq r ->%list_elem_of_singleton -> ->.
    apply failure_explains, http_error_status.
  - intros rq e ->%list_elem_of_singleton ->.
    apply failure_explains, contains_refl.
  - intros rq r e ->%list_elem_of_singleton -> Hok Hb. rewrite Hok.
    rewrite (Hgood _ _ Hok Hb). apply failure_explains, contains_refl.
Qed.

(** C4. No invocation throws: each hands back a tool result.  When the
    response to its request is not a 2xx, the result has isError set and
    a text that holds the decimal status code, in brackets.  When the
    exchange fails on the network, or the body of a 2xx response does not
    parse, the result has isError set and a text that holds the message
    of the error; a search whose query cannot be encoded has isError set
    too. *)
Theorem errors_contained (w : World) (call : ToolCall) :
  ∃ result,
    outcome (invoke JSON_stringify formatResults call) w = inr result ∧
    (∀ request r,
       request ∈ requests (invoke JSON_stringify formatResults call) w →
       network w request = inr r → ok r = false →
       explains result (lit "(" ++ Number_toString (status r) ++ lit ")")) ∧
    (∀ request e,
       request ∈ requests (invoke JSON_stringify formatResults call) w →
       network w request = inl e →
       explains result (message e)) ∧
    (∀ request r e,
       request ∈ requests (invoke JSON_stringify formatResults call) w →
       network w request = inr r → ok r = true →
       body_error formatResults call r = Some e →
       explains result (message e)) ∧
    (encodable call = false → isError result = true).
Proof.
  unfold requests, outcome.
  destruct call as [args|args|args|args|args]; cbn [invoke encodable].
  - destruct (shouldBypassJina (handleGitHubUrl (reader_url args))) eqn:H.
    + rewrite (jina_reader_bypass_eval _ _ H). eexists. split; [done|].
      cbn [fst snd].
      edestruct (exchange_contained w (call_jina_reader args) [] "GitHub API" statusText
                   (fun r => text_result (JStr (text_ r)))) as (HA & HB & HC);
        [|split; [exact HA|split; [exact HB|split; [exact HC|done]]]].
      intros r e _. cbn. by rewrite H.
    + rewrite (jina_reader_jina_eval _ _ H). eexists. split; [done|].
      cbn [fst snd].
      edestruct (exchange_contained w (call_jina_reader args) [] "Jina Reader API" text_
                   (fun r =>
                      match json_ r with
                      | inl e => error_result (message e)
                      | inr data =>
                          match get data (lit "data") with
                          | inl e => error_result (message e)
                          | inr d =>
                              match get (or_else d (JObj [])) (lit "content") with
                              | inl e => error_result (message e)
                              | inr c => text_result (or_else c placeholder)
                              end
                          end
                      end)) as (HA & HB & HC);
        [|split; [exact HA|split; [exact HB|split; [exact HC|done]]]].
      intros r e _. cbn. rewrite H. by destruct (json_ r); intros [= ->].
  - rewrite jina_search_eval.
    destruct (encodeURIComponent (query args)) as [e|q] eqn:E.
    + eexists. split; [done|]. cbn [fst snd].
      split; [by intros ?? ?%elem_of_nil|].
      split; [by intros ?? ?%elem_of_nil|].
      split; [by intros ??? ?%elem_of_nil|done].
    + eexists. split; [done|]. cbn [fst snd].
      edestruct (exchange_contained w (call_jina_search args) [] "Jina Search API" text_
                   (fun r => text_result (JStr (text_ r)))) as (HA & HB & HC);
        [|split; [exact HA|split; [exact HB|split; [exact HC|done]]]].
      by intros r e _.
  - rewrite legacy_reader_eval. eexists. split; [done|]. cbn [fst snd].
    edestruct (exchange_contained w (call_legacy_reader args) (lit "Error: ")
                 "Jina Reader API" text_
                 (fun r =>
                    match json_ r with
                    | inl e => Legacy.error_result (message e)
                    | inr data =>
                        match get data (lit "data") with
                        | inl e => Legacy.error_result (message e)
                        | inr (Some d) =>
                            if truthy d then
                              match get d (lit "content") with
                              | inl e => Legacy.error_result (message e)
                              | inr (Some c) =>
                                  if truthy c then text_result c
                                  else text_result (JStr (JSON_stringify data 2))
                              | inr None => text_result (JStr (JSON_stringify data 2))
                              end
                            else text_result (JStr (JSON_stringify data 2))
                        | inr None => text_result (JStr (JSON_stringify data 2))
                        end
                    end)) as (HA & HB & HC);
      [|split; [exact HA|split; [exact HB|split; [exact HC|done]]]].
    intros r e _. cbn. by destruct (json_ r); intros [= ->].
  - rewrite legacy_search_eval.
    destruct (encodeURIComponent (Legacy.query args)) as [e|q] eqn:E.
    + eexists. split; [done|]. cbn [fst snd].
      split; [by intros ?? ?%elem_of_nil|].
      split; [by intros ?? ?%elem_of_nil|].
      split; [by intros ??? ?%elem_of_nil|done].
    + eexists. split; [done|]. cbn [fst snd].
      edestruct (exchange_contained w (call_legacy_search args) (lit "Error: ")
                   "Jina Search API" text_
                   (fun r =>
                      match formatResults (text_ r) (Legacy.count args)
                              (Legacy.returnFormat args) with
                      | inl e => Legacy.error_result (message e)
                      | inr out => text_result (JStr out)
                      end)) as (HA & HB & HC);
        [|split; [exact HA|split; [exact HB|split; [exact HC|done]]]].
      intros r e _. cbn. by destruct (formatResults _ _ _); intros [= ->].
  - rewrite legacy_fact_check_eval. eexists. split; [done|]. cbn [fst snd].
    edestruct (exchange_contained w (call_legacy_fact_check args) (lit "Error: ")
                 "Jina Fact-Check API" text_
                 (fun r =>
                    match json_ r with
                    | inl e => Legacy.error_result (message e)
                    | inr data => text_result (JStr (JSON_stringify data 2))
                    end)) as (HA & HB & HC);
      [|split; [exact HA|split; [exact HB|split; [exact HC|done]]]].
    intros r e _. cbn. by destruct (json_ r); intros [= ->].
Qed.
End tool_facts.

(** ** The theorems at concrete inputs *)

Lemma jina_reader_bypass_witness :
  let args := {| reader_url := lit "https://github.com/acme/repo/blob/main/README.md";
                 mode := Some COMPREHENSIVE; format := Some STRUCTURED;
                 customTimeout := Some 30 |} in
  let r := {| status := 200; statusText := lit "OK"; text_ := lit "# acme";
              json_ := inl {| message := lit "Unexpected token #" |} |} in
  let w := answering (Some (lit "secret")) (inr r) in
  shouldBypassJina (handleGitHubUrl (reader_url args)) = true ∧
  requests (jina_reader any_stringify args) w =
    [{| url := lit "https://raw.githubusercontent.com/acme/repo/refs/heads/main/README.md";
        method := GET; headers := ∅; body := None |}] ∧
  outcome (jina_reader any_stringify args) w = inr (text_result (JStr (lit "# acme"))).
Proof.
  intros args r w.
  assert (shouldBypassJina (handleGitHubUrl (reader_url args)) = true) as H
    by (vm_compute; reflexivity).
  destruct (jina_reader_bypass any_stringify w args H) as (H1 & H2 & _ & _).
  split; [exact H|]. split.
  - rewrite H1. vm_compute. reflexivity.
  - apply (H2 r); reflexivity.
Defined.

Lemma handleGitHubUrl_other_witness :
  let args := {| reader_url := lit "https://example.com/docs"; mode := None;
                 format := None; customTimeout := None |} in
  ¬ blob_reference (reader_url args) ∧
  handleGitHubUrl (reader_url args) =
    {| isGitHub := false; convertedUrl := reader_url args;
       originalUrl := reader_url args; shouldBypassJina := false |}.
Proof.
  intros args.
  assert (¬ blob_reference (reader_url args)) as H.
  { intros E%gate_spec. vm_compute in E. discriminate E. }
  split; [exact H|].
  exact (proj1 (handleGitHubUrl_other any_stringify (answering None (inl URIError)) args H)).
Defined.

Lemma jina_reader_content_witness :
  let args := {| reader_url := lit "https://example.com/docs"; mode := None;
                 format := None; customTimeout := None |} in
  let data := JObj [(lit "data", JObj [(lit "content", JStr (lit "the page"))])] in
  let r := {| status := 200; statusText := lit "OK";
              text_ := braces (member "data" (braces (member "content" (quoted "the page"))));
              json_ := inr data |} in
  let w := answering None (inr r) in
  shouldBypassJina (handleGitHubUrl (reader_url args)) = false ∧
  network w (reader_request any_stringify w args) = inr r ∧
  ok r = true ∧ json_ r = inr data ∧ data ≠ JNull ∧
  outcome (jina_reader any_stringify args) w = inr (text_result (JStr (lit "the page"))).
Proof.
  intros args data r w.
  assert (shouldBypassJina (handleGitHubUrl (reader_url args)) = false) as H
    by (vm_compute; reflexivity).
  assert (data ≠ JNull) as Hd by discriminate.
  destruct (jina_reader_content any_stringify w args r data H eq_refl eq_refl eq_refl Hd)
    as (_ & H2 & _).
  do 5 (split; [first [exact H | exact Hd | reflexivity]|]).
  rewrite H2. vm_compute. reflexivity.
Defined.

Lemma jina_reader_customTimeout_witness :
  let args := {| reader_url := lit "https://example.com/docs"; mode := Some COMPREHENSIVE;
                 format := None; customTimeout := Some 30 |} in
  let w := answering None (inl {| message := lit "socket hang up" |}) in
  shouldBypassJina (handleGitHubUrl (reader_url args)) = false ∧
  0 < 30 ∧ 30 ≤ MAX_SAFE_INTEGER ∧
  ∃ request,
    requests (jina_reader any_stringify args) w = [request] ∧
    headers request !! lit "X-Timeout" = Some (lit "30").
Proof.
  intros args w.
  assert (shouldBypassJina (handleGitHubUrl (reader_url args)) = false) as H
    by (vm_compute; reflexivity).
  assert (0 < 30) as Hpos by lia.
  assert (30 ≤ MAX_SAFE_INTEGER) as Hsafe by (unfold MAX_SAFE_INTEGER; lia).
  destruct (jina_reader_customTimeout any_stringify w args 30 H eq_refl Hpos Hsafe)
    as (request & H1 & _ & _ & H2).
  split; [exact H|]. split; [exact Hpos|]. split; [exact Hsafe|].
  exists request. split; [exact H1|exact H2].
Defined.

Lemma jina_search_request_witness :
  let args := {| query := lit "quantum computing"; count := 5;
                 siteFilter := Some (lit "github.com") |} in
  let r := {| status := 200; statusText := lit "OK"; text_ := lit "[1] Title: Qiskit";
              json_ := inl {| message := lit "Unexpected token" |} |} in
  let w := answering None (inr r) in
  encodeURIComponent (query args) = inr (lit "quantum%20computing") ∧
  ∃ request,
    requests (jina_search args) w = [request] ∧
    url request = lit "https://s.jina.ai/?q=quantum%20computing" ∧
    method request = GET ∧
    headers request !! lit "X-Site" = Some (lit "https://github.com") ∧
    outcome (jina_search args) w = inr (text_result (JStr (lit "[1] Title: Qiskit"))).
Proof.
  intros args r w.
  assert (encodeURIComponent (query args) = inr (lit "quantum%20computing")) as H
    by (vm_compute; reflexivity).
  destruct (jina_search_request w args _ H) as (request & H1 & H2 & H3 & _ & H4 & _ & H5 & _).
  split; [exact H|]. exists request.
  split; [exact H1|]. split; [exact H2|]. split; [exact H3|]. split.
  - by apply H4.
  - by apply (H5 r).
Defined.

(** ** Where the specification and the code part *)

(** C3 fails on the bypass path: with a credential in the environment, the
    read of a GitHub blob URL sends its one request without an Authorization
    header. *)
Lemma bypass_request_carries_no_credential :
  let args := {| reader_url := lit "https://github.com/acme/repo/blob/main/README.md";
                 mode := None; format := None; customTimeout := None |} in
  let r := {| status := 200; statusText := lit "OK"; text_ := lit "# acme";
              json_ := inl {| message := lit "Unexpected token #" |} |} in
  let w := answering (Some (lit "secret")) (inr r) in
  credential w = Some (lit "secret") ∧
  requests (invoke any_stringify any_layout (call_jina_reader args)) w =
    [{| url := lit "https://raw.githubusercontent.com/acme/repo/refs/heads/main/README.md";
        method := GET; headers := ∅; body := None |}] ∧
  ¬ Forall (fun request =>
              headers request !! lit "Authorization" = Some (lit "Bearer secret"))
           (requests (invoke any_stringify any_layout (call_jina_reader args)) w).
Proof.
  intros args r w.
  assert (requests (invoke any_stringify any_layout (call_jina_reader args)) w =
          [{| url := lit "https://raw.githubusercontent.com/acme/repo/refs/heads/main/README.md";
              method := GET; headers := ∅; body := None |}]) as H
    by (vm_compute; reflexivity).
  split; [done|]. split; [exact H|].
  rewrite H. intros [E _]%Forall_cons. cbn in E. by rewrite lookup_empty in E.
Qed.

(** C2 fails on a response that is not a 2xx: the body of a 404 is not what
    comes back, an error result is. *)
Lemma jina_reader_bypass_counterexample :
  let args := {| reader_url := lit "https://github.com/acme/repo/blob/main/README.md";
                 mode := None; format := None; customTimeout := None |} in
  let r := {| status := 404; statusText := lit "Not Found"; text_ := lit "404: Not Found";
              json_ := inl {| message := lit "Unexpected non-whitespace character" |} |} in
  let w := answering None (inr r) in
  shouldBypassJina (handleGitHubUrl (reader_url args)) = true ∧
  outcome (jina_reader any_stringify args) w =
    inr (error_result (lit "GitHub API error (404): Not Found")) ∧
  outcome (jina_reader any_stringify args) w ≠ inr (text_result (JStr (text_ r))).
Proof.
  intros args r w.
  assert (outcome (jina_reader any_stringify args) w =
          inr (error_result (lit "GitHub API error (404): Not Found"))) as H
    by (vm_compute; reflexivity).
  split; [vm_compute; reflexivity|]. split; [exact H|]. rewrite H. discriminate.
Qed.

(** C6 fails on a URL of another host in which both markers occur: the
    pattern does not match it, and yet it is a special case and is rewritten
    by the textual fallback. *)
Lemma handleGitHubUrl_other_counterexample :
  let url := lit "https://example.com/blob/x?ref=github.com" in
  String_match url blob_pattern = None ∧
  handleGitHubUrl url =
    {| isGitHub := true;
       convertedUrl := lit "https://example.com/x?ref=raw.githubusercontent.com";
       originalUrl := url; shouldBypassJina := true |} ∧
  convertedUrl (handleGitHubUrl url) ≠ url.
Proof.
  intros url.
  assert (handleGitHubUrl url =
          {| isGitHub := true;
             convertedUrl := lit "https://example.com/x?ref=raw.githubusercontent.com";
             originalUrl := url; shouldBypassJina := true |}) as H
    by (vm_compute; reflexivity).
  split; [vm_compute; reflexivity|]. split; [exact H|].
  rewrite H. intros E. vm_compute in E. discriminate E.
Qed.

(** C8 fails twice.  A query that is one unpaired surrogate has no URL
    encoding: no request goes out.  And a site filter that is given as the
    empty string adds no header. *)
Lemma jina_search_request_counterexample :
  let w := answering None (inr {| status := 200; statusText := lit "OK"; text_ := lit "[]";
                                  json_ := inr (JArr []) |}) in
  let unpaired := {| query := [55296%N]; count := 5; siteFilter := None |} in
  let unfiltered := {| query := lit "rocq"; count := 5; siteFilter := Some [] |} in
  (requests (jina_search unpaired) w = [] ∧
   outcome (jina_search unpaired) w = inr (error_result (lit "URI malformed"))) ∧
  requests (jina_search unfiltered) w =
    [{| url := lit "https://s.jina.ai/?q=rocq"; method := GET;
        headers := {[ lit "X-Respond-With" := lit "no-content" ]}; body := None |}].
Proof.
  intros w unpaired unfiltered.
  split; [split|]; vm_compute; reflexivity.
Qed.

(** C7 fails twice.  A content field that is there and empty is not what
    comes back, the placeholder is; and where the content field is absent
    nothing of the payload comes back: two different payloads yield the same
    placeholder. *)
Lemma jina_reader_content_counterexample :
  let args := {| reader_url := lit "https://example.com/docs"; mode := None;
                 format := None; customTimeout := None |} in
  let reply body data :=
    answering None
      (inr {| status := 200; statusText := lit "OK"; text_ := body; json_ := inr data |}) in
  let empty_content :=
    reply (braces (member "data" (braces (member "content" (quoted "")))))
          (JObj [(lit "data", JObj [(lit "content", JStr [])])]) in
  let titled :=
    reply (braces (member "data" (braces (member "title" (quoted "Docs")))))
          (JObj [(lit "data", JObj [(lit "title", JStr (lit "Docs"))])]) in
  let bare := reply (braces []) (JObj []) in
  (outcome (jina_reader any_stringify args) empty_content = inr (text_result placeholder) ∧
   outcome (jina_reader any_stringify args) empty_content ≠ inr (text_result (JStr []))) ∧
  (outcome (jina_reader any_stringify args) titled = inr (text_result placeholder) ∧
   outcome (jina_reader any_stringify args) bare = inr (text_result placeholder)).
Proof.
  intros args reply empty_content titled bare.
  assert (outcome (jina_reader any_stringify args) empty_content
          = inr (text_result placeholder)) as H by (vm_compute; reflexivity).
  split; [split|split].
  - exact H.
  - rewrite H. discriminate.
  - vm_compute. reflexivity.
  - vm_compute. reflexivity.
Qed.

(** * The rest of the code *)

(** ** The header builders *)

(** X1. createHeaders issues no request and does not throw.  It returns the
    base headers with at most the Authorization entry changed: every other
    name reads as in the base, Authorization is the bearer token when the
    key is set and not empty, and the base comes back as it is when the key
    is unset or empty.  The legacy helper is the same function. *)
Theorem createHeaders_base (w : World) (base : Headers) :
  ∃ h,
    createHeaders base w = ([], inr h) ∧
    Legacy.createHeaders base w = ([], inr h) ∧
    (∀ name, name ≠ lit "Authorization" → h !! name = base !! name) ∧
    (∀ key, JINA_API_KEY w = Some key → key ≠ [] →
            h !! lit "Authorization" = Some (lit "Bearer " ++ key)) ∧
    (JINA_API_KEY w = None ∨ JINA_API_KEY w = Some [] → h = base).
Proof.
  exists (with_credential w base).
  split; [apply createHeaders_eval|]. split; [apply createHeaders_eval|].
  unfold with_credential, credential. split; [|split].
  - intros name Hname. destruct (JINA_API_KEY w) as [key|]; [|done].
    destruct (String_truthy key); [|done]. by rewrite lookup_insert_ne.
  - intros key -> Hkey. destruct key; [done|]. apply lookup_insert_eq.
  - by intros [-> | ->].
Qed.

Lemma with_credential_other (w : World) (h : Headers) (name : jsstring) :
  name ≠ lit "Authorization" → with_credential w h !! name = h !! name.
Proof.
  intros Hname. unfold with_credential. destruct (credential w); [|done].
  by rewrite lookup_insert_ne.
Qed.

Lemma with_timeout_other (t : option Z) (h : Headers) (name : jsstring) :
  name ≠ lit "X-Timeout" → with_timeout t h !! name = h !! name.
Proof.
  intros Hname. unfold with_timeout. destruct t as [t|]; [|done].
  destruct (Number_truthy t); [|done]. by rewrite lookup_insert_ne.
Qed.

(** X2. For a GitHub URL buildJinaHeaders returns one fixed header set,
    whatever the mode and the format: the content-type and accept headers,
    the direct engine, the text format and a timeout of 10.  No request of
    the reader carries that set: the reader calls the function on the one
    path where the URL is not a GitHub one. *)
Theorem buildJinaHeaders_github (JSON_stringify : json → nat → jsstring) (w : World)
    (args : ReaderArgs) (m : ExtractionMode) (f : OutputFormat) :
  buildJinaHeaders m f true =
    rows [(engine, "direct"); (return_format, "text"); (timeout, "10")] ∪ json_headers ∧
  Forall (fun request => headers request ≠ buildJinaHeaders m f true)
         (requests (jina_reader JSON_stringify args) w).
Proof.
  split; [vm_compute; reflexivity|].
  assert (∀ name, name ≠ lit "Authorization" → name ≠ lit "X-Timeout" →
            headers (reader_request JSON_stringify w args) !! name =
            buildJinaHeaders (default STANDARD (mode args))
              (default DEFAULT (format args)) false !! name) as Hother.
  { intros name H1 H2. cbn [headers reader_request].
    by rewrite with_credential_other, with_timeout_other. }
  unfold requests.
  destruct (shouldBypassJina (handleGitHubUrl (reader_url args))) eqn:H.
  - rewrite (jina_reader_bypass_eval _ _ _ H). repeat constructor.
    intros E. apply (f_equal (fun h : Headers => h !! lit "Accept")) in E.
    revert E. cbn [headers direct_request]. rewrite lookup_empty.
    vm_compute; discriminate.
  - rewrite (jina_reader_jina_eval _ _ _ H). repeat constructor. cbn [fst].
    destruct (default STANDARD (mode args)).
    1,2: intros E; apply (f_equal (fun h : Headers => h !! lit "X-With-Links-Summary")) in E;
      revert E; rewrite Hother by (by vm_compute);
      destruct (default DEFAULT (format args)); vm_compute; discriminate.
    intros E; apply (f_equal (fun h : Headers => h !! lit "X-Target-Selector")) in E;
      revert E; rewrite Hother by (by vm_compute);
      destruct (default DEFAULT (format args)); vm_compute; discriminate.
Qed.

(** X3. Whatever its three arguments, buildJinaHeaders asks for JSON both
    ways, names an engine and a timeout that go together (direct with 10,
    browser with 15), and sets no header outside its nine names: never an
    Authorization or a site header. *)
Theorem buildJinaHeaders_invariant (m : ExtractionMode) (f : OutputFormat) (isGitHub : bool) :
  let h := buildJinaHeaders m f isGitHub in
  h !! lit "Content-Type" = Some (lit "application/json") ∧
  h !! lit "Accept" = Some (lit "application/json") ∧
  (h !! lit "X-Engine" = Some (lit "direct") ∧ h !! lit "X-Timeout" = Some (lit "10") ∨
   h !! lit "X-Engine" = Some (lit "browser") ∧ h !! lit "X-Timeout" = Some (lit "15")) ∧
  (∀ name, is_Some (h !! name) → name ∈ reader_header_names) ∧
  h !! lit "Authorization" = None ∧ h !! lit "X-Site" = None.
Proof.
  intros h. subst h.
  split; [by destruct m, f, isGitHub; vm_compute|].
  split; [by destruct m, f, isGitHub; vm_compute|].
  split; [destruct m, f, isGitHub; vm_compute; auto|].
  split; [|split; by destruct m, f, isGitHub; vm_compute].
  intros name [v Hv]. apply elem_of_map_to_list in Hv.
  apply (list_elem_of_fmap_2 fst) in Hv. cbn [fst] in Hv.
  revert Hv. generalize name. apply Forall_forall.
  destruct m, f, isGitHub;
    match goal with |- ?G => apply (@bool_decide_unpack G _) end; vm_compute; exact I.
Qed.

(** ** The URL classifier *)

Lemma exec_from_None (r : regex) (i : nat) (s pre t : jsstring) :
  exec_from r i s = None → s = pre ++ t → match_at r (i + length pre) t = None.
Proof.
  revert i pre. induction s as [|c s IH]; intros i pre; rewrite exec_from_unfold.
  - destruct (match_at r i []) eqn:E; [done|]. intros _ Heq.
    symmetry in Heq. apply app_eq_nil in Heq as [-> ->]. simpl. by rewrite Nat.add_0_r.
  - destruct (match_at r i (c :: s)) eqn:E; [done|]. intros Hs Heq.
    destruct pre as [|c' pre]; simpl in *.
    + subst t. by rewrite Nat.add_0_r.
    + injection Heq as -> Heq. rewrite Nat.add_succ_r. by apply (IH (S i)).
Qed.

(** The pattern of line 72 fails on a URL exactly when no place of the URL
    has its shape. *)
Lemma String_match_no_blob (url : jsstring) :
  String_match url blob_pattern = None ↔ no_blob url.
Proof.
  split.
  - intros Hm pre s owner repo ref path Heq Hat.
    apply blob_at_complete in Hat as [whole Hat].
    pose proof (exec_from_None _ _ _ _ _ Hm Heq) as Hn.
    rewrite match_at_blob in Hn. congruence.
  - intros Hn. destruct (String_match url blob_pattern) as [match_|] eqn:Hm; [|done].
    apply exec_from_Some in Hm as (pre & t & Heq & Hm & _).
    rewrite match_at_blob in Hm.
    apply blob_at_sound in Hm as (whole & o & r & f & p & _ & Hat).
    destruct (Hn pre t o r f p Heq Hat).
Qed.

(** X4. A URL whose first github.com/ is followed by owner, repository,
    /blob/ and ref, with or without a path after it, is rewritten to the
    raw-content URL of that file, whatever stands before: the scheme and
    anything else ahead of github.com/ are dropped, and a URL that ends
    with the ref gets a raw URL that ends with a slash. *)
Theorem handleGitHubUrl_first_blob (pre s owner repo ref path : jsstring) :
  String_includes pre (lit "github.com/") = false →
  BlobAt s owner repo ref path →
  isGitHub (handleGitHubUrl (pre ++ s)) = true ∧
  (commit_hash ref →
   convertedUrl (handleGitHubUrl (pre ++ s)) =
   lit "https://raw.githubusercontent.com/" ++ owner ++ lit "/" ++ repo ++
   lit "/" ++ ref ++ lit "/" ++ path) ∧
  (¬ commit_hash ref →
   convertedUrl (handleGitHubUrl (pre ++ s)) =
   lit "https://raw.githubusercontent.com/" ++ owner ++ lit "/" ++ repo ++
   lit "/refs/heads/" ++ ref ++ lit "/" ++ path).
Proof.
  intros Hpre Hat.
  assert (blob_reference (pre ++ s)) as Hgate%gate_spec by by eapply BlobAt_reference.
  pose proof (BlobUrl_intro _ _ _ _ _ _ Hpre Hat) as Hm%matches_blob_iff.
  destruct Hm as (match_ & Hm & H1 & H2 & H3 & H4).
  unfold handleGitHubUrl. rewrite Hgate, Hm, H1, H2, H3, H4.
  unfold ToString, default. cbn [from_option id].
  destruct (RegExp_test commit_hash_pattern ref) eqn:E;
    cbn [isGitHub convertedUrl]; (split; [done|split]).
  - done.
  - apply RegExp_test_commit_hash in E. by intros [].
  - intros Hc%RegExp_test_commit_hash. congruence.
  - done.
Qed.

Lemma handleGitHubUrl_first_blob_witness :
  let pre := lit "http://www." in
  let s := lit "github.com/acme/repo/blob/main" in
  String_includes pre (lit "github.com/") = false ∧
  BlobAt s (lit "acme") (lit "repo") (lit "main") [] ∧
  convertedUrl (handleGitHubUrl (pre ++ s)) =
  lit "https://raw.githubusercontent.com/acme/repo/refs/heads/main/".
Proof.
  intros pre s.
  assert (String_includes pre (lit "github.com/") = false) as Hpre by (vm_compute; reflexivity).
  assert (BlobAt s (lit "acme") (lit "repo") (lit "main") []) as Hat.
  { assert (∀ w, bool_decide (w ≠ [] ∧ slash ∉ w) = true → segment w) as Hseg.
    { intros w H. exact (bool_decide_eq_true_1 _ H). }
    exists []. split; [vm_compute; reflexivity|].
    split; [|split; [|split]]; [apply Hseg; vm_compute; reflexivity..|constructor]. }
  split; [exact Hpre|]. split; [exact Hat|].
  destruct (handleGitHubUrl_first_blob _ _ _ _ _ _ Hpre Hat) as (_ & _ & ->).
  - vm_compute. reflexivity.
  - intros [Hlen _]. vm_compute in Hlen. discriminate.
Defined.

(** [s.replace(p, r)] rewrites the first occurrence of [p]. *)
Lemma String_replace_first (s p r : jsstring) :
  String_includes s p = true →
  ∃ a b, first_occurrence s p a b ∧ String_replace s p r = a ++ r ++ b.
Proof.
  induction s as [|c s IH]; rewrite String_includes_unfold, String_replace_unfold.
  - destruct (startsWith [] p) eqn:E; [|done]. intros _.
    exists [], (drop (length p) []). split; [|done].
    split; [by apply startsWith_inv|]. intros; simpl; lia.
  - destruct (startsWith (c :: s) p) eqn:E.
    + intros _. exists [], (drop (length p) (c :: s)). split; [|done].
      split; [by apply startsWith_inv|]. intros; simpl; lia.
    + simpl. intros (a & b & [Heq Hfirst] & ->)%IH.
      exists (c :: a), b. split; [|done]. split; [by rewrite Heq|].
      intros [|c' a'] b' Heq'; simpl in *.
      * assert (startsWith (c :: s) p = true) as E'; [|congruence].
        apply startsWith_spec. by exists b'.
      * injection Heq' as -> Heq'. specialize (Hfirst a' b' Heq'). lia.
Qed.

(** The two markers of line 66 never overlap: where both occur, one ends
    before the other begins. *)
Lemma markers_apart (a b x y : jsstring) :
  a ++ lit "github.com" ++ b = x ++ lit "/blob/" ++ y →
  (∃ k, a = x ++ lit "/blob/" ++ k) ∨ (∃ k, b = k ++ lit "/blob/" ++ y).
Proof.
  change (lit "github.com") with [103; 105; 116; 104; 117; 98; 46; 99; 111; 109]%N.
  change (lit "/blob/") with [47; 98; 108; 111; 98; 47]%N.
  intros [(k & -> & Hk)|(k & -> & Hk)]%app_eq_inv.
  - left. do 6 (destruct k as [|? k]; [by simplify_eq/=|]).
    simplify_eq/=. by eexists.
  - right. do 10 (destruct k as [|? k]; [by simplify_eq/=|]).
    simplify_eq/=. by eexists.
Qed.

(** X5. A URL in which both markers occur but no place has the shape of the
    blob pattern is still a special case.  Its raw URL is the URL with the
    first github.com replaced by raw.githubusercontent.com and then the
    first /blob/ replaced by a slash; it is ten code units longer than the
    URL, so never the URL itself. *)
Theorem handleGitHubUrl_fallback (url : jsstring) :
  blob_reference url → no_blob url →
  ∃ a b c d,
    first_occurrence url (lit "github.com") a b ∧
    first_occurrence (a ++ lit "raw.githubusercontent.com" ++ b) (lit "/blob/") c d ∧
    handleGitHubUrl url =
      {| isGitHub := true; convertedUrl := c ++ lit "/" ++ d;
         originalUrl := url; shouldBypassJina := true |} ∧
    length (c ++ lit "/" ++ d) = (length url + 10)%nat.
Proof.
  intros Href Hno. pose proof Href as Hgate%gate_spec.
  apply String_match_no_blob in Hno. destruct Href as [Hg Hb].
  apply String_includes_spec in Hg.
  destruct (String_replace_first url (lit "github.com") (lit "raw.githubusercontent.com") Hg)
    as (a & b & Hab & Hr1).
  assert (String_includes (a ++ lit "raw.githubusercontent.com" ++ b) (lit "/blob/") = true)
    as Hb'.
  { apply String_includes_spec. destruct Hb as (x & y & Hxy). destruct Hab as [Heq _].
    rewrite Heq in Hxy. apply markers_apart in Hxy as [[k ->]|[k ->]].
    - exists x, (k ++ lit "raw.githubusercontent.com" ++ b). by rewrite <- !app_assoc.
    - exists (a ++ lit "raw.githubusercontent.com" ++ k), y. by rewrite <- !app_assoc. }
  destruct (String_replace_first _ (lit "/blob/") (lit "/") Hb') as (c & d & Hcd & Hr2).
  exists a, b, c, d. split; [exact Hab|]. split; [exact Hcd|]. split.
  - unfold handleGitHubUrl. by rewrite Hgate, Hno, Hr1, Hr2.
  - destruct Hab as [-> _]. destruct Hcd as [Hcd _].
    apply (f_equal length) in Hcd. revert Hcd. rewrite !length_app.
    change (length (lit "raw.githubusercontent.com")) with 25%nat.
    change (length (lit "github.com")) with 10%nat.
    change (length (lit "/blob/")) with 6%nat.
    change (length (lit "/")) with 1%nat. lia.
Qed.

Lemma handleGitHubUrl_fallback_witness :
  let url := lit "https://example.com/blob/x?ref=github.com" in
  blob_reference url ∧ no_blob url ∧
  convertedUrl (handleGitHubUrl url) = lit "https://example.com/x?ref=raw.githubusercontent.com".
Proof.
  intros url.
  assert (blob_reference url) as Href by (apply gate_spec; vm_compute; reflexivity).
  assert (no_blob url) as Hno by (apply String_match_no_blob; vm_compute; reflexivity).
  split; [exact Href|]. split; [exact Hno|].
  destruct (handleGitHubUrl_fallback url Href Hno) as (a & b & c & d & _ & _ & H & _).
  rewrite H at 1. cbn [convertedUrl].
  apply (f_equal convertedUrl) in H. cbn [convertedUrl] in H. rewrite <- H.
  vm_compute. reflexivity.
Defined.

(** ** The handlers *)

Section handler_facts.
Variable JSON_stringify : json → nat → jsstring.
Variable formatResults : jsstring → Z → Legacy.ReturnFormat → Error + jsstring.

(** X6. A read outside the bypass path with no custom timeout, or with a
    custom timeout of 0, sends the timeout of its mode in the table (10
    for standard, 15 for the other two): a zero does not override.  A
    negative timeout is not checked: a negative safe integer (down to
    1 - 2^53) is sent as its decimal numeral. *)
Theorem jina_reader_timeout_default (w : World) (args : ReaderArgs) :
  shouldBypassJina (handleGitHubUrl (reader_url args)) = false →
  ∃ request,
    requests (jina_reader JSON_stringify args) w = [request] ∧
    (customTimeout args = None ∨ customTimeout args = Some 0 →
     headers request !! lit "X-Timeout" =
     Some (lit (mode_timeout (default STANDARD (mode args))))) ∧
    (∀ t, customTimeout args = Some t → - MAX_SAFE_INTEGER ≤ t < 0 →
          headers request !! lit "X-Timeout" = Some (Number_toString t)).
Proof.
  intros H. unfold requests. rewrite (jina_reader_jina_eval _ _ _ H).
  eexists. split; [done|]. cbn [fst headers reader_request].
  rewrite with_credential_other by (by vm_compute). split.
  - intros Ht.
    assert (with_timeout (customTimeout args) = fun h => h) as ->.
    { by destruct Ht as [-> | ->]. }
    destruct (default STANDARD (mode args)), (default DEFAULT (format args));
      vm_compute; reflexivity.
  - intros t -> Ht. unfold with_timeout, Number_truthy.
    destruct (Z.eqb_spec t 0) as [->|_]; [lia|]. apply lookup_insert_eq.
Qed.

(** X7. The text of an error result, to the letter.  When the response to
    the request of a call is not a 2xx, the text names the service and the
    status and then quotes the body of the response as it came (the
    status text, on the bypass path); when the exchange fails, the text is
    the message of the error.  The legacy handlers put Error: before
    either. *)
Theorem invoke_error_text (w : World) (call : ToolCall) :
  Forall (fun request =>
            match network w request with
            | inl e =>
                outcome (invoke JSON_stringify formatResults call) w =
                inr (failure (error_prefix call) (message e))
            | inr r =>
                ok r = false →
                outcome (invoke JSON_stringify formatResults call) w =
                inr (failure (error_prefix call)
                       (http_error (api call) (status r) (detail call r)))
            end)
         (requests (invoke JSON_stringify formatResults call) w).
Proof.
  unfold requests, outcome, api, detail.
  destruct call as [args|args|args|args|args]; cbn [invoke error_prefix bypasses].
  - destruct (shouldBypassJina (handleGitHubUrl (reader_url args))) eqn:H.
    + rewrite (jina_reader_bypass_eval _ _ _ H). repeat constructor. cbn [fst snd].
      destruct (network w _) as [e|r]; [done|]. by intros ->.
    + rewrite (jina_reader_jina_eval _ _ _ H). repeat constructor. cbn [fst snd].
      destruct (network w _) as [e|r]; [done|]. by intros ->.
  - rewrite jina_search_eval. destruct (encodeURIComponent _); repeat constructor.
    cbn [fst snd]. destruct (network w _) as [e|r]; [done|]. by intros ->.
  - rewrite legacy_reader_eval. repeat constructor. cbn [fst snd].
    destruct (network w _) as [e|r]; [done|]. by intros ->.
  - rewrite legacy_search_eval. destruct (encodeURIComponent _); repeat constructor.
    cbn [fst snd]. destruct (network w _) as [e|r]; [done|]. by intros ->.
  - rewrite legacy_fact_check_eval. repeat constructor. cbn [fst snd].
    destruct (network w _) as [e|r]; [done|]. by intros ->.
Qed.

(** X8. A reader whose request is answered by a 2xx with the JSON body
    null does not return a placeholder or the payload: reading the data
    property of null throws, and the result is an error with the message
    of that TypeError. *)
Theorem reader_null_body (w : World) (call : ToolCall) :
  reads_content call = true →
  Forall (fun request =>
            ∀ r, network w request = inr r → ok r = true → json_ r = inr JNull →
                 outcome (invoke JSON_stringify formatResults call) w =
                 inr (failure (error_prefix call)
                        (lit "Cannot read properties of null (reading 'data')")))
         (requests (invoke JSON_stringify formatResults call) w).
Proof.
  unfold requests, outcome.
  destruct call as [args|args|args|args|args]; try discriminate;
    cbn [invoke error_prefix reads_content bypasses].
  - intros H%negb_true_iff. rewrite (jina_reader_jina_eval _ _ _ H).
    repeat constructor. cbn [fst snd]. by intros r -> -> ->.
  - intros _. rewrite legacy_reader_eval. repeat constructor. cbn [fst snd].
    by intros r -> -> ->.
Qed.

(** X9. The legacy reader, on a 2xx with a JSON body other than null,
    returns the nested data.content when it is there and truthy, as the
    reader of index.js does; in every other case it returns the whole
    payload, printed with an indentation of 2, where the reader of
    index.js returns its placeholder. *)
Theorem legacy_reader_content (w : World) (args : Legacy.ReaderArgs) (r : Response)
    (data : json) :
  network w (legacy_reader_request JSON_stringify w args) = inr r →
  ok r = true → json_ r = inr data → data ≠ JNull →
  requests (Legacy.jina_reader JSON_stringify args) w =
    [legacy_reader_request JSON_stringify w args] ∧
  outcome (Legacy.jina_reader JSON_stringify args) w =
    inr (text_result (default (JStr (JSON_stringify data 2)) (extracted_content data))).
Proof.
  intros Hnet Hok Hjson Hdata. unfold requests, outcome.
  rewrite legacy_reader_eval, Hnet, Hok, Hjson. cbn [fst snd]. split; [done|].
  rewrite (get_field _ _ Hdata). unfold extracted_content.
  destruct (field data (lit "data")) as [d|]; [|done].
  destruct (truthy d) eqn:Hd.
  - rewrite get_field by (by intros ->). destruct (field d (lit "content")) as [c|]; [|done].
    by destruct (truthy c).
  - destruct d; try done; cbn in *.
    all: destruct (own_property _ _) as [c|]; [|done]; by destruct (truthy c).
Qed.

(** X10. The fact-check tool posts the statement and the deepdive flag as
    one JSON object to its endpoint and, on a 2xx with a JSON body, returns
    that body printed with an indentation of 2, whatever it holds: no
    property of it is read, so the body null is returned like any other. *)
Theorem legacy_fact_check_payload (w : World) (args : Legacy.FactCheckArgs)
    (r : Response) (data : json) :
  network w (legacy_fact_check_request JSON_stringify w args) = inr r →
  ok r = true → json_ r = inr data →
  (∃ request,
     requests (Legacy.jina_fact_check JSON_stringify args) w = [request] ∧
     url request = lit "https://g.jina.ai/" ∧ method request = POST ∧
     body request =
       Some (JSON_stringify
               (JObj [(lit "statement", JStr (Legacy.statement args));
                      (lit "deepdive", JBool (Legacy.deepdive args))]) 0)) ∧
  outcome (Legacy.jina_fact_check JSON_stringify args) w =
    inr (text_result (JStr (JSON_stringify data 2))).
Proof.
  intros Hnet Hok Hjson. unfold requests, outcome.
  rewrite legacy_fact_check_eval, Hnet, Hok, Hjson. cbn [fst snd].
  split; [by eexists|done].
Qed.

Lemma anonymous_with_credential (w : World) (u : jsstring) (m : Method) (h : Headers)
    (b : option jsstring) :
  anonymous {| url := u; method := m; headers := with_credential w h; body := b |} =
  anonymous {| url := u; method := m; headers := h; body := b |}.
Proof.
  unfold anonymous, with_credential. cbn [url method headers body].
  destruct (credential w); [|done]. by rewrite delete_insert_eq.
Qed.

(** X11. The API key reaches nothing but the Authorization header, and no
    request waits for an answer of the network: in two environments,
    whatever their keys and whatever their networks answer, a call sends
    the same requests (the same URL, method, body and other headers) once
    the Authorization header is left out. *)
Theorem requests_but_credential (w w' : World) (call : ToolCall) :
  anonymous <$> requests (invoke JSON_stringify formatResults call) w =
  anonymous <$> requests (invoke JSON_stringify formatResults call) w'.
Proof.
  rewrite !invoke_requests.
  destruct call as [args|args|args|args|args]; cbn [sent].
  - destruct (shouldBypassJina _); [done|]. cbn [fmap list_fmap]. unfold reader_request.
    by rewrite !anonymous_with_credential.
  - destruct (encodeURIComponent _); [done|]. cbn [fmap list_fmap]. unfold search_request.
    by rewrite !anonymous_with_credential.
  - cbn [fmap list_fmap]. unfold legacy_reader_request.
    by rewrite !anonymous_with_credential.
  - destruct (encodeURIComponent _); [done|]. cbn [fmap list_fmap].
    unfold legacy_search_request. by rewrite !anonymous_with_credential.
  - cbn [fmap list_fmap]. unfold legacy_fact_check_request.
    by rewrite !anonymous_with_credential.
Qed.
End handler_facts.

(** ** The encoding of a search query *)

Ltac div_lia := zify; Z.to_euclidean_division_equations; lia.

Lemma upper_hex_inj (a b : N) : upper_hex a = upper_hex b → a = b.
Proof. unfold upper_hex. destruct (N.ltb_spec a 10), (N.ltb_spec b 10); lia. Qed.

Lemma percent_app_inj (o o' : N) (X X' : jsstring) :
  percent o ++ X = percent o' ++ X' → o = o' ∧ X = X'.
Proof.
  unfold percent. cbn [app]. intros [= H1%upper_hex_inj H2%upper_hex_inj ->].
  split; [div_lia|done].
Qed.

Lemma utf8_cases (cp : N) :
  (cp < 128 ∧ utf8 cp = [cp])%N ∨
  (128 ≤ cp < 2048 ∧ utf8 cp = [192 + cp / 64; 128 + cp mod 64])%N ∨
  (2048 ≤ cp < 65536 ∧
   utf8 cp = [224 + cp / 4096; 128 + (cp / 64) mod 64; 128 + cp mod 64])%N ∨
  (65536 ≤ cp ∧
   utf8 cp = [240 + cp / 262144; 128 + (cp / 4096) mod 64; 128 + (cp / 64) mod 64;
              128 + cp mod 64])%N.
Proof.
  unfold utf8.
  destruct (N.ltb_spec cp 128); [by left|].
  destruct (N.ltb_spec cp 2048); [right; left; split; [lia|done]|].
  destruct (N.ltb_spec cp 65536); [right; right; left; split; [lia|done]|].
  right; right; right. by split.
Qed.

Lemma escapes_cons (o : N) (l : list N) (t : jsstring) :
  concat (percent <$> (o :: l)) ++ t = percent o ++ concat (percent <$> l) ++ t.
Proof. cbn [fmap list_fmap concat]. by rewrite <- app_assoc. Qed.

(** The escapes of two code points are never a prefix of one another: the
    first octet tells how many follow. *)
Lemma utf8_prefix (cp cp' : N) (t t' : jsstring) :
  concat (percent <$> utf8 cp) ++ t = concat (percent <$> utf8 cp') ++ t' →
  cp = cp' ∧ t = t'.
Proof.
  destruct (utf8_cases cp) as [[B ->]|[[B ->]|[[B ->]|[B ->]]]];
  destruct (utf8_cases cp') as [[B' ->]|[[B' ->]|[[B' ->]|[B' ->]]]];
  rewrite !escapes_cons; intros [E1 E]%percent_app_inj.
  all: try (exfalso; clear E; div_lia).
  - done.
  - apply percent_app_inj in E as [E2 E]. split; [div_lia|done].
  - apply percent_app_inj in E as [E2 E]. apply percent_app_inj in E as [E3 E].
    split; [div_lia|done].
  - apply percent_app_inj in E as [E2 E]. apply percent_app_inj in E as [E3 E].
    apply percent_app_inj in E as [E4 E]. split; [div_lia|done].
Qed.

Lemma percent_safe (o : N) : (o < 256)%N → Forall uri_safe (percent o).
Proof.
  intros Ho. unfold percent, uri_safe.
  assert (∀ n, (n < 16)%N → uriUnreserved (upper_hex n) = true) as Hhex.
  { intros n Hn. unfold uriUnreserved, upper_hex.
    destruct (N.ltb_spec n 10).
    - assert ((48 <=? 48 + n)%N = true ∧ (48 + n <=? 57)%N = true) as [-> ->]; [|done].
      rewrite !N.leb_le. lia.
    - assert ((48 <=? 55 + n)%N = true ∧ (55 + n <=? 57)%N = false ∧
              (65 <=? 55 + n)%N = true ∧ (55 + n <=? 90)%N = true) as (-> & -> & -> & ->);
        [|done].
      rewrite !N.leb_le, N.leb_gt. lia. }
  apply Forall_cons. split; [by right|].
  apply Forall_cons. split; [left; apply Hhex; div_lia|].
  apply Forall_cons. split; [left; apply Hhex; div_lia|constructor].
Qed.

Lemma escapes_safe (cp : N) (t : jsstring) :
  (cp < 1114112)%N → Forall uri_safe t → Forall uri_safe (concat (percent <$> utf8 cp) ++ t).
Proof.
  intros Hcp Ht.
  destruct (utf8_cases cp) as [[B ->]|[[B ->]|[[B ->]|[B ->]]]];
    rewrite ?escapes_cons; cbn [fmap list_fmap concat app];
    repeat (apply Forall_app; split; [apply percent_safe; div_lia|]); exact Ht.
Qed.

(** What the encoding of a string that begins with [c] looks like. *)
Lemma encodeURIComponent_cons (c : code_unit) (s q : jsstring) :
  encodeURIComponent (c :: s) = inr q →
  (uriUnreserved c = true ∧ ∃ t, encodeURIComponent s = inr t ∧ q = c :: t) ∨
  (uriUnreserved c = false ∧ lead_surrogate c = false ∧
   ∃ t, encodeURIComponent s = inr t ∧ q = concat (percent <$> utf8 c) ++ t) ∨
  (uriUnreserved c = false ∧ lead_surrogate c = true ∧
   ∃ d s' t, s = d :: s' ∧ trail_surrogate d = true ∧ encodeURIComponent s' = inr t ∧
     q = concat (percent <$> utf8 ((c - 55296) * 1024 + (d - 56320) + 65536)%N) ++ t).
Proof.
  cbn [encodeURIComponent]. unfold escape. intros H.
  destruct (uriUnreserved c).
  - left. split; [done|].
    destruct (encodeURIComponent s) as [e|t]; [done|]. injection H as <-. eauto.
  - right. destruct (lead_surrogate c).
    + right. split; [done|]. split; [done|].
      destruct s as [|d s']; [done|]. cbn iota in H.
      destruct (trail_surrogate d) eqn:Hd; [|done].
      destruct (encodeURIComponent s') as [e|t] eqn:Ht; [done|]. injection H as <-.
      by exists d, s', t.
    + left. split; [done|]. split; [done|].
      destruct (trail_surrogate c); [done|].
      destruct (encodeURIComponent s) as [e|t]; [done|]. injection H as <-. eauto.
Qed.

Lemma surrogate_pair_range (c d : code_unit) :
  lead_surrogate c = true → trail_surrogate d = true →
  (65536 ≤ (c - 55296) * 1024 + (d - 56320) + 65536 < 1114112)%N.
Proof.
  unfold lead_surrogate, trail_surrogate.
  rewrite !andb_true_iff, !N.leb_le. lia.
Qed.

Lemma encodeURIComponent_safe_upto (n : nat) (s q : jsstring) :
  (length s ≤ n)%nat → utf16 s → encodeURIComponent s = inr q → Forall uri_safe q.
Proof.
  revert s q. induction n as [|n IH]; intros [|c s] q Hn Hs; simpl in Hn; try lia.
  - intros [= <-]. constructor.
  - intros [= <-]. constructor.
  - apply Forall_cons in Hs as [Hc Hs].
    intros [(Hu & t & Ht & ->)|[(Hu & Hl & t & Ht & ->)|
                                 (Hu & Hl & d & s' & t & -> & Hd & Ht & ->)]]%encodeURIComponent_cons.
    + constructor; [by left|]. apply (IH s); [lia|done..].
    + apply escapes_safe; [lia|]. apply (IH s); [lia|done..].
    + apply Forall_cons in Hs as [_ Hs]. simpl in Hn.
      apply escapes_safe; [by apply surrogate_pair_range|]. apply (IH s'); [lia|done..].
Qed.

Lemma escapes_head (cp : N) (t : jsstring) :
  ∃ rest, concat (percent <$> utf8 cp) ++ t = 37%N :: rest.
Proof.
  destruct (utf8_cases cp) as [[_ ->]|[[_ ->]|[[_ ->]|[_ ->]]]]; by eexists.
Qed.

(** Nothing but the empty string encodes to the empty string. *)
Lemma encodeURIComponent_nil (s : jsstring) : encodeURIComponent s = inr [] → s = [].
Proof.
  destruct s as [|c s]; [done|].
  intros [(_ & t & _ & E)|[(_ & _ & t & _ & E)|
                            (_ & _ & d & r & t & _ & _ & _ & E)]]%encodeURIComponent_cons;
    [done|..].
  - destruct (escapes_head c t) as [rest Hr]. rewrite Hr in E. discriminate E.
  - destruct (escapes_head ((c - 55296) * 1024 + (d - 56320) + 65536)%N t) as [rest Hr].
    rewrite Hr in E. discriminate E.
Qed.

Lemma encodeURIComponent_injective_upto (n : nat) (s s' q : jsstring) :
  (length s ≤ n)%nat → utf16 s → utf16 s' →
  encodeURIComponent s = inr q → encodeURIComponent s' = inr q → s = s'.
Proof.
  revert s s' q. induction n as [|n IH]; intros s s' q Hn Hs Hs'.
  { destruct s; [|simpl in Hn; lia]. intros [= <-] Hq'. symmetry.
    by apply encodeURIComponent_nil. }
  destruct s as [|c s].
  { intros [= <-] Hq'. symmetry. by apply encodeURIComponent_nil. }
  destruct s' as [|c' s'].
  { intros Hq [= <-]. by apply encodeURIComponent_nil. }
  simpl in Hn. apply Forall_cons in Hs as [Hc Hs]. apply Forall_cons in Hs' as [Hc' Hs'].
  intros Hq Hq'.
  apply encodeURIComponent_cons in Hq
    as [(Hu & t & Ht & ->)|[(Hu & Hl & t & Ht & ->)|
                             (Hu & Hl & d & r & t & -> & Hd & Ht & ->)]];
  apply encodeURIComponent_cons in Hq'
    as [(Hu' & t' & Ht' & E)|[(Hu' & Hl' & t' & Ht' & E)|
                               (Hu' & Hl' & d' & r' & t' & -> & Hd' & Ht' & E)]].
  - injection E as -> ->. f_equal. by apply (IH s s' t'); [lia|..].
  - exfalso. destruct (escapes_head c' t') as [rest Hr]. rewrite Hr in E.
    injection E as -> _. discriminate Hu.
  - exfalso.
    destruct (escapes_head ((c' - 55296) * 1024 + (d' - 56320) + 65536)%N t') as [rest Hr].
    rewrite Hr in E. injection E as -> _. discriminate Hu.
  - exfalso. destruct (escapes_head c t) as [rest Hr]. rewrite Hr in E.
    injection E as <- _. discriminate Hu'.
  - apply utf8_prefix in E as [-> ->]. f_equal. by apply (IH s s' t'); [lia|..].
  - apply utf8_prefix in E as [E ->]. exfalso.
    pose proof (surrogate_pair_range _ _ Hl' Hd'). lia.
  - exfalso.
    destruct (escapes_head ((c - 55296) * 1024 + (d - 56320) + 65536)%N t) as [rest Hr].
    rewrite Hr in E. injection E as <- _. discriminate Hu'.
  - apply utf8_prefix in E as [E ->]. exfalso.
    pose proof (surrogate_pair_range _ _ Hl Hd). lia.
  - apply utf8_prefix in E as [E ->].
    apply Forall_cons in Hs as [_ Hs]. apply Forall_cons in Hs' as [_ Hs'].
    simpl in Hn.
    assert (c = c' ∧ d = d') as [-> ->].
    { revert Hl Hl' Hd Hd' E. unfold lead_surrogate, trail_surrogate.
      rewrite !andb_true_iff, !N.leb_le. lia. }
    do 2 f_equal. by apply (IH r r' t'); [lia|..].
Qed.

Lemma uri_safe_no_delimiter (c : code_unit) : uri_safe c → c ∉ lit "&=#?/+ ".
Proof.
  intros Hc Hin.
  change (lit "&=#?/+ ") with [38; 61; 35; 63; 47; 43; 32]%N in Hin.
  repeat (apply elem_of_cons in Hin as [->|Hin]; [by destruct Hc|]).
  by apply elem_of_nil in Hin.
Qed.

Section search_facts.
Variable JSON_stringify : json → nat → jsstring.
Variable formatResults : jsstring → Z → Legacy.ReturnFormat → Error + jsstring.

Lemma search_requests (w : World) (call : ToolCall) (q : jsstring) :
  search_query call = Some q →
  url <$> requests (invoke JSON_stringify formatResults call) w =
  match encodeURIComponent q with
  | inr e => [lit "https://s.jina.ai/?q=" ++ e]
  | inl _ => []
  end.
Proof.
  rewrite invoke_requests.
  destruct call as [args|args|args|args|args]; try discriminate;
    intros [= <-]; cbn [sent]; by destruct (encodeURIComponent _).
Qed.

(** X12. The URL a search requests, of either tool set, is the search
    endpoint followed by the encoded query, and the encoded query holds
    nothing but unreserved characters and percent signs: no ampersand,
    equals sign, hash, question mark, slash, plus or space of the query
    reaches the URL as it is, so the query cannot add a parameter or a
    fragment of its own. *)
Theorem search_url_safe (w : World) (call : ToolCall) (q : jsstring) :
  search_query call = Some q → utf16 q →
  Forall (fun u =>
            ∃ e, u = lit "https://s.jina.ai/?q=" ++ e ∧
                 Forall uri_safe e ∧ ∀ c, c ∈ lit "&=#?/+ " → c ∉ e)
         (url <$> requests (invoke JSON_stringify formatResults call) w).
Proof.
  intros Hcall Hq. rewrite (search_requests _ _ _ Hcall).
  destruct (encodeURIComponent q) as [err|e] eqn:E; repeat constructor.
  pose proof (encodeURIComponent_safe_upto _ _ _ (Nat.le_refl _) Hq E) as He.
  exists e. split; [done|]. split; [done|].
  intros c Hc Hin. eapply uri_safe_no_delimiter; [|exact Hc].
  by eapply Forall_forall in He.
Qed.

(** X13. The encoding loses nothing: two searches that request the same
    URL have the same query. *)
Theorem search_url_injective (w w' : World) (call call' : ToolCall) (q q' : jsstring) :
  search_query call = Some q → search_query call' = Some q' →
  utf16 q → utf16 q' →
  requests (invoke JSON_stringify formatResults call) w ≠ [] →
  url <$> requests (invoke JSON_stringify formatResults call) w =
  url <$> requests (invoke JSON_stringify formatResults call') w' →
  q = q'.
Proof.
  intros Hcall Hcall' Hq Hq' Hne.
  rewrite (search_requests _ _ _ Hcall), (search_requests _ _ _ Hcall').
  assert (url <$> requests (invoke JSON_stringify formatResults call) w ≠ []) as Hne'.
  { by destruct (requests _ w). }
  rewrite (search_requests _ _ _ Hcall) in Hne'.
  destruct (encodeURIComponent q) as [err|e] eqn:E; [done|].
  destruct (encodeURIComponent q') as [err'|e'] eqn:E'; [done|].
  intros [= ->].
  by eapply (encodeURIComponent_injective_upto _ q q' e').
Qed.
End search_facts.

(** ** The layout of the legacy search results *)

Lemma own_property_delete (fields : list (jsstring * json)) (key key' : jsstring) :
  key ≠ key' → own_property (delete_property fields key') key = own_property fields key.
Proof.
  intros Hne. unfold delete_property.
  induction fields as [|[k v] fields IH]; [done|].
  rewrite filter_cons. cbn [fst own_property]. destruct (decide (k ≠ key')) as [Hk|Hk].
  - cbn [own_property]. by rewrite IH.
  - apply dec_stable in Hk as ->. rewrite IH.
    destruct (own_property fields key); [done|]. by rewrite decide_False.
Qed.

Lemma get_strip_usage (result : json) (key : jsstring) :
  key ≠ lit "usage" → get (strip_usage result) key = get result key.
Proof.
  intros Hne. destruct result; try done. cbn. by rewrite own_property_delete.
Qed.

Lemma strip_usage_idemp (result : json) :
  strip_usage (strip_usage result) = strip_usage result.
Proof.
  destruct result; try done. cbn. unfold delete_property. f_equal.
  induction fields as [|[k v] fields IH]; [done|].
  rewrite filter_cons. destruct (decide _) as [Hk|Hk]; [|done].
  rewrite filter_cons, decide_True by done. by rewrite IH.
Qed.

Lemma strip_usage_null (result : json) : strip_usage result = JNull ↔ result = JNull.
Proof. by destruct result. Qed.

Lemma Array_map_ext {A B C} (f : nat → A → Error + C) (g : nat → B → Error + C)
    (h : A → B) (index : nat) (l : list A) :
  (∀ i x, f i x = g i (h x)) → Array_map f index l = Array_map g index (h <$> l).
Proof.
  intros Hfg. revert index. induction l as [|x l IH]; intros index; [done|].
  cbn. by rewrite Hfg, IH.
Qed.

Section layout_facts.
Variable number : Q → jsstring.
Variable greater : json → Z → Error + bool.

Implicit Types (result : json) (items : list json) (fmt : Legacy.ReturnFormat).

Lemma property_or_strip result (key fallback : string) :
  lit key ≠ lit "usage" →
  property_or number (strip_usage result) key fallback = property_or number result key fallback.
Proof. intros Hne. unfold property_or. by rewrite get_strip_usage. Qed.

Lemma date_line_strip result :
  date_line number (strip_usage result) = date_line number result.
Proof. unfold date_line. by rewrite get_strip_usage by (by vm_compute). Qed.

Lemma markdown_entry_strip index result :
  markdown_entry number index (strip_usage result) = markdown_entry number index result.
Proof.
  unfold markdown_entry. by rewrite !property_or_strip, date_line_strip by (by vm_compute).
Qed.

Lemma html_entry_strip result :
  html_entry number (strip_usage result) = html_entry number result.
Proof.
  unfold html_entry. by rewrite !property_or_strip, date_line_strip by (by vm_compute).
Qed.

Lemma text_entry_strip index result :
  text_entry number index (strip_usage result) = text_entry number index result.
Proof.
  unfold text_entry. by rewrite !property_or_strip, date_line_strip by (by vm_compute).
Qed.

(** The layout does not look at the usage of a result. *)
Lemma arranged_strip items fmt :
  arranged number (strip_usage <$> items) fmt = arranged number items fmt.
Proof.
  unfold arranged. destruct fmt.
  - by rewrite <- (Array_map_ext (markdown_entry number) _ strip_usage)
      by (intros; by rewrite markdown_entry_strip).
  - by rewrite <- (Array_map_ext (text_entry number) _ strip_usage)
      by (intros; by rewrite text_entry_strip).
  - by rewrite <- (Array_map_ext (fun _ => html_entry number) _ strip_usage)
      by (intros; by rewrite html_entry_strip).
Qed.

Lemma without_usage_cases result :
  (result = JNull ∧ without_usage result = inl null_result) ∨
  (result ≠ JNull ∧
   ∃ result', without_usage result = inr result' ∧
              strip_usage result' = strip_usage result).
Proof.
  destruct result; [by left|right; split; [done|]; eauto..|].
  right. split; [done|]. unfold without_usage. cbn [get and_then].
  destruct (own_property fields (lit "usage")) as [usage|]; [|eauto].
  destruct (truthy usage); [|eauto].
  eexists. split; [done|]. apply (strip_usage_idemp (JObj fields)).
Qed.

(** The cleaning of lines 144 to 150 fails on the first result that is
    null, and changes nothing but the usage of a result otherwise. *)
Lemma cleaned_cases index items :
  (JNull ∈ items ∧ Array_map (fun _ => without_usage) index items = inl null_result) ∨
  ((JNull ∉ items) ∧
   ∃ results,
     Array_map (fun _ => without_usage) index items = inr results ∧
     strip_usage <$> results = strip_usage <$> items).
Proof.
  revert index. induction items as [|result items IH]; intros index.
  - right. split; [by intros ?%elem_of_nil|]. by exists [].
  - cbn [Array_map].
    destruct (without_usage_cases result) as [[H1 H2]|(Hne & result' & H2 & Hs)];
      rewrite H2.
    + left. subst result. split; [by left|done].
    + cbn [and_then]. destruct (IH (S index)) as [[Hin ->]|(Hin & results & -> & Hr)].
      * left. split; [by right|done].
      * right. split.
        { intros [Heq|?]%elem_of_cons; [by symmetry in Heq|]. by apply Hin. }
        exists (result' :: results). split; [done|]. cbn. by rewrite Hs, Hr.
Qed.

(** What lines 143 to 170 come to. *)
Lemma written_cases items fmt :
  (JNull ∈ items ∧ written number items fmt = inl null_result) ∨
  ((JNull ∉ items) ∧
   written number items fmt = arranged number (strip_usage <$> items) fmt).
Proof.
  unfold written. destruct (cleaned_cases 0 items) as [[Hin ->]|(Hin & results & -> & Hr)].
  - by left.
  - right. split; [done|]. cbn [and_then]. by rewrite <- Hr, arranged_strip.
Qed.

Lemma layout_array (data : json) items (count : Z) fmt :
  field data (lit "data") = Some (JArr items) →
  layout number greater data count fmt = written number (within count items) fmt.
Proof.
  intros Hd. unfold layout.
  assert (get data (lit "data") = inr (Some (JArr items))) as ->.
  { destruct data; try done. cbn in Hd |- *. by rewrite Hd. }
  cbn [and_then or_else truthy limited]. unfold within, Number_truthy.
  destruct (Z.ltb_spec 0 count) as [Hpos|Hneg].
  - destruct (Z.eqb_spec count 0) as [->|_]; [lia|]. cbn [negb andb].
    destruct (Z.ltb_spec count (Z.of_nat (length items))); [done|].
    cbn [and_then]. by rewrite take_ge by lia.
  - by rewrite andb_false_r.
Qed.

(** X14. The count of the legacy search cuts the results before anything
    looks at them: with a positive count the layout is that of the first
    count results (of all of them, when there are no more), and with a
    count of zero or below it is the layout of all the results, so zero
    asks for no limit and not for no result. *)
Theorem layout_count (data : json) items (count : Z) fmt :
  field data (lit "data") = Some (JArr items) →
  layout number greater data count fmt = written number (within count items) fmt ∧
  (0 < count → within count items = take (Z.to_nat count) items ∧
               length (within count items) = Nat.min (Z.to_nat count) (length items)) ∧
  (count ≤ 0 → within count items = items).
Proof.
  intros Hd. split; [by apply layout_array|]. unfold within.
  destruct (Z.ltb_spec 0 count); split; try lia; intros _; [|done].
  split; [done|]. by rewrite length_take.
Qed.

(** X15. The layout does not depend on the usage of the results: two
    lists of results that differ in their usage properties only are
    written alike, and fail alike. *)
Theorem written_ignores_usage items items' fmt :
  strip_usage <$> items = strip_usage <$> items' →
  written number items fmt = written number items' fmt.
Proof.
  intros Hs.
  assert (∀ l : list json, JNull ∈ l ↔ JNull ∈ strip_usage <$> l) as Hnull.
  { intros l. rewrite list_elem_of_fmap. split.
    - intros H. by exists JNull.
    - intros (result & Hr & Hin). symmetry in Hr.
      apply (proj1 (strip_usage_null _)) in Hr. by subst. }
  destruct (written_cases items fmt) as [[Hin ->]|[Hin ->]],
           (written_cases items' fmt) as [[Hin' ->]|[Hin' ->]].
  - done.
  - destruct Hin'. apply (proj2 (Hnull _)). rewrite <- Hs. by apply (proj1 (Hnull _)).
  - destruct Hin. apply (proj2 (Hnull _)). rewrite Hs. by apply (proj1 (Hnull _)).
  - by rewrite Hs.
Qed.

(** X16. One result that is null among those within the count makes the
    whole search fail, with the message of the TypeError of reading its
    usage; a null beyond the count does no harm. *)
Theorem layout_null_result (data : json) items (count : Z) fmt :
  field data (lit "data") = Some (JArr items) →
  JNull ∈ within count items →
  layout number greater data count fmt = inl null_result.
Proof.
  intros Hd Hin. rewrite (layout_array _ _ _ _ Hd).
  by destruct (written_cases (within count items) fmt) as [[_ ->]|[Hn _]].
Qed.

(** X17. A payload whose data is there and truthy but is not an array (a
    string, a number, true, an object) makes the layout fail; for a value
    that is not an object the error is that of the missing map method,
    results.map is not a function. *)
Theorem layout_not_array (data d : json) (count : Z) fmt :
  field data (lit "data") = Some d → truthy d = true →
  (∀ items, d ≠ JArr items) →
  ∃ e, layout number greater data count fmt = inl e ∧
       ((∀ fields, d ≠ JObj fields) → e = not_a_function "map").
Proof.
  intros Hd Ht Harr. unfold layout.
  assert (get data (lit "data") = inr (Some d)) as ->.
  { destruct data; try done. cbn in Hd |- *. by rewrite Hd. }
  cbn [and_then or_else]. rewrite Ht.
  destruct d as [|b|q|s|items|fields]; try discriminate Ht;
    try (by exists (not_a_function "map")); [by destruct (Harr items)|].
  cbn [limited].
  destruct (Number_truthy count && (0 <? count)).
  - destruct (own_property fields (lit "length")) as [v|].
    + destruct (greater v count) as [e|more]; cbn [and_then]; eexists;
        (split; [done|]); intros H; by destruct (H fields).
    + eexists. split; [done|]. intros H. by destruct (H fields).
  - eexists. split; [done|]. intros H. by destruct (H fields).
Qed.

Lemma property_or_plain (fields : list (jsstring * json)) (key fallback : string) :
  text_or_absent (own_property fields (lit key)) →
  ∃ s, property_or number (JObj fields) key fallback = inr s.
Proof.
  unfold property_or. cbn [get and_then].
  destruct (own_property fields (lit key)) as [[]|]; try done; intros _; cbn.
  - destruct (String_truthy s); by eexists.
  - by eexists.
Qed.

Lemma date_line_plain (fields : list (jsstring * json)) :
  text_or_absent (own_property fields (lit "date")) →
  ∃ s, date_line number (JObj fields) = inr s.
Proof.
  unfold date_line. cbn [get and_then].
  destruct (own_property fields (lit "date")) as [[]|]; try done; intros _; cbn.
  - destruct (String_truthy s); by eexists.
  - by eexists.
Qed.

Lemma Array_map_total {A B} (f : nat → A → Error + B) (P : A → Prop) (index : nat)
    (l : list A) :
  (∀ i x, P x → ∃ y, f i x = inr y) → Forall P l → ∃ ys, Array_map f index l = inr ys.
Proof.
  intros Hf Hl. revert index. induction Hl as [|x l Hx Hl IH]; intros index.
  - by exists [].
  - cbn. destruct (Hf index x Hx) as [y ->]. destruct (IH (S index)) as [ys ->].
    by eexists.
Qed.

Lemma plain_strip result : plain result → plain (strip_usage result).
Proof.
  destruct result; try done. cbn. intros H.
  eapply Forall_impl; [exact H|]. intros key Hkey. cbn beta in *.
  destruct (decide (key = lit "usage")) as [->|Hne].
  - clear. unfold delete_property.
    induction fields as [|[k v] fields IH]; [done|].
    rewrite filter_cons. cbn [fst]. destruct (decide (k ≠ lit "usage")) as [Hk|Hk]; [|done].
    cbn [own_property]. destruct (own_property _ _); [done|]. by rewrite decide_False.
  - by rewrite own_property_delete.
Qed.

(** X18. Results as the search service sends them are always written
    out: when every result within the count is an object whose title,
    url, description and date are strings where it has them, the layout
    succeeds in each of the three formats, whatever else the results and
    the payload hold. *)
Theorem layout_plain (data : json) items (count : Z) fmt :
  field data (lit "data") = Some (JArr items) →
  Forall plain (within count items) →
  ∃ out, layout number greater data count fmt = inr out.
Proof.
  intros Hd Hp. rewrite (layout_array _ _ _ _ Hd).
  destruct (written_cases (within count items) fmt) as [[Hin _]|[_ ->]].
  { by destruct (proj1 (Forall_forall _ _) Hp JNull Hin). }
  assert (Forall plain (strip_usage <$> within count items)) as Hp'.
  { apply Forall_fmap. eapply Forall_impl; [exact Hp|]. apply plain_strip. }
  assert (∀ result, plain result →
            ∃ title url description date,
              property_or number result "title" "Untitled" = inr title ∧
              property_or number result "url" "" = inr url ∧
              property_or number result "description" "" = inr description ∧
              date_line number result = inr date) as Hparts.
  { intros [] Hr; try done. cbn in Hr.
    apply Forall_cons in Hr as [H1 Hr]. apply Forall_cons in Hr as [H2 Hr].
    apply Forall_cons in Hr as [H3 Hr]. apply Forall_cons in Hr as [H4 _].
    destruct (property_or_plain fields "title" "Untitled" H1) as [title ->].
    destruct (property_or_plain fields "url" "" H2) as [url ->].
    destruct (property_or_plain fields "description" "" H3) as [description ->].
    destruct (date_line_plain fields H4) as [date ->]. by do 4 eexists. }
  unfold arranged. destruct fmt.
  - destruct (Array_map_total (markdown_entry number) plain 0
                (strip_usage <$> within count items)) as [ys ->];
      [|done|by eexists].
    intros i result (t & u & d & dt & H1 & H2 & H3 & H4)%Hparts.
    unfold markdown_entry. rewrite H1, H2, H3, H4. by eexists.
  - destruct (Array_map_total (text_entry number) plain 0
                (strip_usage <$> within count items)) as [ys ->];
      [|done|by eexists].
    intros i result (t & u & d & dt & H1 & H2 & H3 & H4)%Hparts.
    unfold text_entry. rewrite H1, H2, H3, H4. by eexists.
  - destruct (Array_map_total (fun _ => html_entry number) plain 0
                (strip_usage <$> within count items)) as [ys ->];
      [|done|by eexists].
    intros i result (t & u & d & dt & H1 & H2 & H3 & H4)%Hparts.
    unfold html_entry. rewrite H1, H2, H3, H4. by eexists.
Qed.

Lemma Array_map_lookup {A B} (f : nat → A → Error + B) (index : nat) (l : list A)
    (ys : list B) :
  Array_map f index l = inr ys →
  length ys = length l ∧
  ∀ i y, ys !! i = Some y → ∃ x, l !! i = Some x ∧ f (index + i)%nat x = inr y.
Proof.
  revert index ys. induction l as [|x l IH]; intros index ys.
  - intros [= <-]. split; [done|]. intros i y Hy. by rewrite lookup_nil in Hy.
  - cbn [Array_map]. destruct (f index x) as [e|y0] eqn:Hx; [done|]. cbn [and_then].
    destruct (Array_map f (S index) l) as [e|ys0] eqn:Hl; [done|]. cbn [and_then].
    intros [= <-]. destruct (IH _ _ Hl) as [Hlen Hlook]. split; [by cbn; rewrite Hlen|].
    intros [|i] y Hy; cbn in Hy.
    + injection Hy as <-. exists x. by rewrite Nat.add_0_r.
    + destruct (Hlook i y Hy) as (x' & Hx' & Hf). exists x'. split; [done|].
      by rewrite Nat.add_succ_r.
Qed.

Lemma entry_strip fmt (i : nat) result :
  entry number fmt i (strip_usage result) = entry number fmt i result.
Proof.
  destruct fmt; cbn [entry].
  - apply markdown_entry_strip.
  - apply text_entry_strip.
  - apply html_entry_strip.
Qed.

Lemma arranged_entries results fmt :
  arranged number results fmt =
  let? entries := Array_map (entry number fmt) 0 results in
  inr (joined fmt entries).
Proof. by destruct fmt. Qed.

(** The title an entry shows comes right after its head. *)
Lemma entry_title fmt (i : nat) result (text : jsstring) :
  entry number fmt i result = inr text →
  ∃ title rest,
    property_or number result "title" "Untitled" = inr title ∧
    text = entry_head fmt i ++ title ++ rest.
Proof.
  destruct fmt; cbn [entry entry_head];
    unfold markdown_entry, text_entry, html_entry;
    (destruct (property_or _ _ "title" _) as [e|title]; [done|]); cbn [and_then];
    (destruct (property_or _ _ "url" _); [done|]); cbn [and_then];
    (destruct (property_or _ _ "description" _); [done|]); cbn [and_then];
    (destruct (date_line _ _); [done|]); cbn [and_then];
    intros [= <-]; exists title; eexists; (split; [done|]);
    rewrite <- ?app_assoc; reflexivity.
Qed.

(** X19. A layout that succeeds has one entry for each result within the
    count, in the order of the results: the entry of index i is what the
    callback of the format writes for the result of index i, whatever the
    usage of that result, and so begins with the number i + 1 (in the
    text and markdown formats) and then the title of that result, or
    Untitled.  The entries are joined by an empty line (text), by a line
    break after the one that ends each entry (markdown), or side by side
    inside an ordered list (html). *)
Theorem layout_entries (data : json) items (count : Z) fmt (out : jsstring) :
  field data (lit "data") = Some (JArr items) →
  layout number greater data count fmt = inr out →
  ∃ entries,
    out = joined fmt entries ∧
    length entries = length (within count items) ∧
    ∀ i result, within count items !! i = Some result →
      ∃ text title rest,
        entries !! i = Some text ∧
        entry number fmt i result = inr text ∧
        property_or number result "title" "Untitled" = inr title ∧
        text = entry_head fmt i ++ title ++ rest.
Proof.
  intros Hd. rewrite (layout_array _ _ _ _ Hd). unfold written.
  destruct (cleaned_cases 0 (within count items)) as [[_ ->]|(_ & results & -> & Hr)];
    [done|].
  cbn [and_then]. rewrite arranged_entries.
  destruct (Array_map (entry number fmt) 0 results) as [e|entries] eqn:E; [done|].
  cbn [and_then]. intros [= <-].
  destruct (Array_map_lookup _ _ _ _ E) as [Hlen Hlook].
  assert (length results = length (within count items)) as Hlen'.
  { apply (f_equal length) in Hr. by rewrite !length_fmap in Hr. }
  exists entries. split; [done|]. split; [congruence|].
  intros i result Hi.
  assert (is_Some (entries !! i)) as [text Htext].
  { apply lookup_lt_is_Some. apply lookup_lt_Some in Hi. lia. }
  destruct (Hlook i text Htext) as (result' & Hi' & Hentry). cbn [Nat.add] in Hentry.
  assert (strip_usage result' = strip_usage result) as Hs.
  { apply (f_equal (fun l => l !! i)) in Hr. rewrite !list_lookup_fmap, Hi, Hi' in Hr.
    by injection Hr. }
  rewrite <- entry_strip, Hs, entry_strip in Hentry.
  destruct (entry_title _ _ _ _ Hentry) as (title & rest & Htitle & ->).
  by exists (entry_head fmt i ++ title ++ rest), title, rest.
Qed.

End layout_facts.

(** ** Startup *)

Lemma main_credential (connect : Error + ()) (w : World) :
  main connect w =
  let log :=
    match credential w with
    | Some key =>
        console_error
          [printed (lit "Jina AI API key found with length " ++
                    Number_toString (Z.of_nat (length key)))] ::
        (if (length key <? 10)%nat then [short_key_warning] else [])
    | None =>
        [console_error [printed (lit "No Jina AI API key found. Some features may be limited.")]]
    end in
  match connect with
  | inr _ => {| console := log; exit := None |}
  | inl error =>
      {| console := log ++ [console_error [printed (lit "Server error:"); caught error]];
         exit := Some 1 |}
  end.
Proof.
  unfold main, getJinaApiKey, credential. cbn [snd].
  destruct (JINA_API_KEY w) as [key|]; [destruct (String_truthy key)|]; by destruct connect.
Qed.

(** X21. What startup writes to the console depends on the API key through
    its length alone: two environments whose keys are as long (or are both
    unset or empty) start alike, so the key itself is never printed.  The
    warning of line 339 is written exactly when a key is set and has fewer
    than 10 code units; and the process exits, with code 1, exactly when
    connecting the server fails: a missing key does not stop it. *)
Theorem main_diagnostics (connect : Error + ()) (w : World) :
  (∀ w', length <$> credential w' = length <$> credential w →
         main connect w' = main connect w) ∧
  (short_key_warning ∈ console (main connect w) ↔
   ∃ key, credential w = Some key ∧ (length key < 10)%nat) ∧
  exit (main connect w) = match connect with inl _ => Some 1 | inr _ => None end.
Proof.
  split; [|split].
  - intros w' Hlen. rewrite !main_credential.
    destruct (credential w') as [key'|], (credential w) as [key|]; try discriminate Hlen;
      [|done].
    injection Hlen as ->. done.
  - rewrite main_credential. cbn zeta.
    assert (∀ log error,
              short_key_warning ∈ log ++ [console_error [printed (lit "Server error:"); caught error]]
              ↔ short_key_warning ∈ log) as Htail.
    { intros log error. rewrite elem_of_app, list_elem_of_singleton.
      split; [by intros [?|?]|by left]. }
    assert (short_key_warning ∈
              match credential w with
              | Some key =>
                  console_error
                    [printed (lit "Jina AI API key found with length " ++
                              Number_toString (Z.of_nat (length key)))] ::
                  (if (length key <? 10)%nat then [short_key_warning] else [])
              | None =>
                  [console_error
                     [printed (lit "No Jina AI API key found. Some features may be limited.")]]
              end
            ↔ ∃ key, credential w = Some key ∧ (length key < 10)%nat) as Hlog.
    { destruct (credential w) as [key|].
      - destruct (Nat.ltb_spec (length key) 10).
        + split; [by exists key|]. intros _. right. by left.
        + split.
          * intros [?|?%elem_of_nil]%elem_of_cons; done.
          * intros (key' & [= <-] & ?). lia.
      - split.
        + intros [?|?%elem_of_nil]%elem_of_cons; done.
        + by intros (key' & ? & _). }
    destruct connect as [error|[]]; cbn [console]; [by rewrite Htail|done].
  - rewrite main_credential. by destruct connect.
Qed.

(** ** The theorems above at concrete inputs *)

Lemma jina_reader_timeout_default_witness :
  let args := {| reader_url := lit "https://example.com/docs"; mode := Some COMPREHENSIVE;
                 format := None; customTimeout := Some 0 |} in
  let w := answering None (inl URIError) in
  shouldBypassJina (handleGitHubUrl (reader_url args)) = false ∧
  ∃ request,
    requests (jina_reader any_stringify args) w = [request] ∧
    headers request !! lit "X-Timeout" = Some (lit "15").
Proof.
  intros args w.
  assert (shouldBypassJina (handleGitHubUrl (reader_url args)) = false) as H
    by (vm_compute; reflexivity).
  split; [exact H|].
  destruct (jina_reader_timeout_default any_stringify w args H) as (request & Hr & Hdefault & _).
  exists request. split; [exact Hr|]. apply Hdefault. right. reflexivity.
Defined.

Lemma reader_null_body_witness :
  let call := call_jina_reader {| reader_url := lit "https://example.com/docs"; mode := None;
                                  format := None; customTimeout := None |} in
  let w := answering None (inr (ok_json "null" JNull)) in
  reads_content call = true ∧
  Forall (fun request =>
            outcome (invoke any_stringify any_layout call) w =
            inr (error_result (lit "Cannot read properties of null (reading 'data')")))
         (requests (invoke any_stringify any_layout call) w).
Proof.
  intros call w.
  assert (reads_content call = true) as H by (vm_compute; reflexivity).
  split; [exact H|].
  eapply Forall_impl; [exact (reader_null_body any_stringify any_layout w call H)|].
  intros request Hr. exact (Hr (ok_json "null" JNull) eq_refl eq_refl eq_refl).
Defined.

Lemma legacy_reader_content_witness :
  let args := {| Legacy.url := lit "https://example.com/docs"; Legacy.format := Legacy.Markdown;
                 Legacy.withLinks := false; Legacy.withImages := false |} in
  let data := JObj [(lit "code", JNum 200); (lit "data", JObj [(lit "content", JStr [])])] in
  let r := ok_json "{ }" data in
  let w := answering None (inr r) in
  network w (legacy_reader_request (printed_as "PAYLOAD") w args) = inr r ∧
  ok r = true ∧ json_ r = inr data ∧ data ≠ JNull ∧
  outcome (Legacy.jina_reader (printed_as "PAYLOAD") args) w =
    inr (text_result (JStr (lit "PAYLOAD"))).
Proof.
  intros args data r w.
  assert (data ≠ JNull) as Hdata by discriminate.
  split; [reflexivity|]. split; [reflexivity|]. split; [reflexivity|]. split; [exact Hdata|].
  exact (proj2 (legacy_reader_content (printed_as "PAYLOAD") w args r data
                  eq_refl eq_refl eq_refl Hdata)).
Defined.

Lemma legacy_fact_check_payload_witness :
  let args := {| Legacy.statement := lit "The Earth is flat"; Legacy.deepdive := true |} in
  let r := ok_json "null" JNull in
  let w := answering (Some (lit "jina_0123456789")) (inr r) in
  network w (legacy_fact_check_request (printed_as "null") w args) = inr r ∧
  ok r = true ∧ json_ r = inr JNull ∧
  outcome (Legacy.jina_fact_check (printed_as "null") args) w =
    inr (text_result (JStr (lit "null"))).
Proof.
  intros args r w.
  split; [reflexivity|]. split; [reflexivity|]. split; [reflexivity|].
  exact (proj2 (legacy_fact_check_payload (printed_as "null") w args r JNull
                  eq_refl eq_refl eq_refl)).
Defined.

Lemma utf16_ascii (s : string) : utf16 (lit s).
Proof.
  unfold utf16, lit. apply Forall_fmap, Forall_forall. intros a _. cbn.
  pose proof (N_ascii_bounded a). lia.
Qed.

Lemma search_url_safe_witness :
  let q := lit "a&b=c #d" in
  let call := call_jina_search {| query := q; count := 5; siteFilter := None |} in
  let w := answering None (inl URIError) in
  search_query call = Some q ∧ utf16 q ∧
  url <$> requests (invoke any_stringify any_layout call) w =
    [lit "https://s.jina.ai/?q=a%26b%3Dc%20%23d"] ∧
  Forall (fun u =>
            ∃ e, u = lit "https://s.jina.ai/?q=" ++ e ∧
                 Forall uri_safe e ∧ ∀ c, c ∈ lit "&=#?/+ " → c ∉ e)
         (url <$> requests (invoke any_stringify any_layout call) w).
Proof.
  intros q call w.
  split; [reflexivity|]. split; [apply utf16_ascii|]. split; [vm_compute; reflexivity|].
  exact (search_url_safe any_stringify any_layout w call q eq_refl (utf16_ascii _)).
Defined.

Lemma search_url_injective_witness :
  let q := lit "quantum computing" in
  let call := call_jina_search {| query := q; count := 5; siteFilter := Some (lit "github.com") |} in
  let call' := call_legacy_search {| Legacy.query := q; Legacy.count := 3;
                                     Legacy.returnFormat := Legacy.as_text |} in
  let w := answering None (inl URIError) in
  search_query call = Some q ∧ search_query call' = Some q ∧ utf16 q ∧
  requests (invoke any_stringify any_layout call) w ≠ [] ∧
  url <$> requests (invoke any_stringify any_layout call) w =
  url <$> requests (invoke any_stringify any_layout call') w ∧
  q = q.
Proof.
  intros q call call' w.
  assert (requests (invoke any_stringify any_layout call) w ≠ []) as Hne
    by (vm_compute; discriminate).
  assert (url <$> requests (invoke any_stringify any_layout call) w =
          url <$> requests (invoke any_stringify any_layout call') w) as Heq
    by (vm_compute; reflexivity).
  split; [reflexivity|]. split; [reflexivity|]. split; [apply utf16_ascii|].
  split; [exact Hne|]. split; [exact Heq|].
  exact (search_url_injective any_stringify any_layout w w call call' q q eq_refl eq_refl
           (utf16_ascii _) (utf16_ascii _) Hne Heq).
Defined.

Lemma layout_count_witness :
  let first := JObj [(lit "title", JStr (lit "First"))] in
  let second := JObj [(lit "title", JStr (lit "Second"))] in
  let data := JObj [(lit "code", JNum 200); (lit "data", JArr [first; second; JNull])] in
  field data (lit "data") = Some (JArr [first; second; JNull]) ∧
  layout any_number never_greater data 2 Legacy.as_text =
    written any_number [first; second] Legacy.as_text.
Proof.
  intros first second data.
  split; [reflexivity|].
  exact (proj1 (layout_count any_number never_greater data [first; second; JNull] 2
                  Legacy.as_text eq_refl)).
Defined.

Lemma written_ignores_usage_witness :
  let billed := JObj [(lit "title", JStr (lit "First")); (lit "usage", JObj [(lit "tokens", JNum 7)])] in
  let free := JObj [(lit "title", JStr (lit "First"))] in
  strip_usage <$> [billed] = strip_usage <$> [free] ∧
  written any_number [billed] Legacy.as_markdown = written any_number [free] Legacy.as_markdown.
Proof.
  intros billed free.
  assert (strip_usage <$> [billed] = strip_usage <$> [free]) as H by (vm_compute; reflexivity).
  split; [exact H|].
  exact (written_ignores_usage any_number [billed] [free] Legacy.as_markdown H).
Defined.

Lemma layout_null_result_witness :
  let first := JObj [(lit "title", JStr (lit "First"))] in
  let data := JObj [(lit "data", JArr [first; JNull])] in
  field data (lit "data") = Some (JArr [first; JNull]) ∧
  JNull ∈ within 5 [first; JNull] ∧
  layout any_number never_greater data 5 Legacy.as_html = inl null_result.
Proof.
  intros first data.
  assert (JNull ∈ within 5 [first; JNull]) as H by (right; left).
  split; [reflexivity|]. split; [exact H|].
  exact (layout_null_result any_number never_greater data [first; JNull] 5 Legacy.as_html
           eq_refl H).
Defined.

Lemma layout_not_array_witness :
  let d := JStr (lit "no results") in
  let data := JObj [(lit "data", d)] in
  field data (lit "data") = Some d ∧ truthy d = true ∧ (∀ items, d ≠ JArr items) ∧
  ∃ e, layout any_number never_greater data 5 Legacy.as_markdown = inl e ∧
       ((∀ fields, d ≠ JObj fields) → e = not_a_function "map").
Proof.
  intros d data.
  assert (∀ items, d ≠ JArr items) as H by discriminate.
  split; [reflexivity|]. split; [reflexivity|]. split; [exact H|].
  exact (layout_not_array any_number never_greater data d 5 Legacy.as_markdown
           eq_refl eq_refl H).
Defined.

Lemma layout_plain_witness :
  let first := JObj [(lit "title", JStr (lit "First")); (lit "url", JStr (lit "https://a.example"));
                     (lit "usage", JObj [(lit "tokens", JNum 7)])] in
  let data := JObj [(lit "data", JArr [first; JNull])] in
  field data (lit "data") = Some (JArr [first; JNull]) ∧
  Forall plain (within 1 [first; JNull]) ∧
  ∃ out, layout any_number never_greater data 1 Legacy.as_text = inr out.
Proof.
  intros first data.
  assert (Forall plain (within 1 [first; JNull])) as H.
  { repeat constructor. }
  split; [reflexivity|]. split; [exact H|].
  exact (layout_plain any_number never_greater data [first; JNull] 1 Legacy.as_text eq_refl H).
Defined.


Lemma layout_entries_witness :
  let first := JObj [(lit "title", JStr (lit "First"))] in
  let second := JObj [(lit "url", JStr (lit "https://b.example"))] in
  let data := JObj [(lit "data", JArr [first; second; JNull])] in
  let one := lit "1. First" ++ LF ++ lit "   " ++ LF ++ lit "   " ++ LF ++ lit "   " in
  let two := lit "2. Untitled" ++ LF ++ lit "   https://b.example" ++ LF ++ lit "   " ++ LF ++
             lit "   " in
  let out := one ++ LF ++ LF ++ two in
  field data (lit "data") = Some (JArr [first; second; JNull]) ∧
  layout any_number never_greater data 2 Legacy.as_text = inr out ∧
  ∃ entries,
    out = joined Legacy.as_text entries ∧
    length entries = 2%nat ∧
    ∃ rest, entries !! 1%nat = Some (lit "2. " ++ lit "Untitled" ++ rest) ∧
            entry any_number Legacy.as_text 1 second =
            inr (lit "2. " ++ lit "Untitled" ++ rest).
Proof.
  intros first second data one two out.
  assert (layout any_number never_greater data 2 Legacy.as_text = inr out) as H
    by (vm_compute; reflexivity).
  split; [reflexivity|]. split; [exact H|].
  destruct (layout_entries any_number never_greater data [first; second; JNull] 2
              Legacy.as_text out eq_refl H) as (entries & Hout & Hlen & Hentries).
  exists entries. split; [exact Hout|]. split; [exact Hlen|].
  destruct (Hentries 1%nat second eq_refl) as (text & title & rest & Htext & Hentry & Htitle & ->).
  injection Htitle as <-. exists rest. split; [exact Htext|exact Hentry].
Defined.
